(** * hpp-manipulation: path validation, steering and state selection

    A shallow embedding of

    - [src/graph-path-validation.cc]  (class [GraphPathValidation]),
    - [src/graph-steering-method.cc]  (class [GraphSteeringMethod]),
    - [include/hpp/manipulation/graph/node-selector.hh] (class [NodeSelector]),

    and the properties of these components.

    Conventions of the embedding.

    - A C++ call either returns, throws, aborts on a failed [assert], or has
      undefined behaviour (a null smart pointer is dereferenced).  These four
      ways out are the constructors of [outcome].
    - [assert] is a macro: with [NDEBUG] defined it expands to nothing and its
      argument is not evaluated.  The build flag is the parameter [NDEBUG].
    - Classes of hpp-core and of the constraint graph that the three files only
      use (paths, the wrapped path validation, the graph, edges) are
      parameters: their virtual methods are fields of records and classes.
    - [hppDout] logging has no effect on results and is left out, and so is
      the [report] out-parameter, which [GraphPathValidation] only hands on to
      the wrapped validator and never reads. *)

From Stdlib Require Import List String Bool Arith ZArith Lia.
From Equations Require Import Equations.
Import ListNotations.

Set Implicit Arguments.

(** * Part I: the model *)

(** ** Ways out of a C++ call *)

(** [catch (const std::logic_error&)] distinguishes [std::logic_error] (and its
    subclasses) from every other exception type. *)
Inductive exception : Type :=
| logic_error (what : string)
| other_exception (what : string).

Inductive outcome (A : Type) : Type :=
| Return (a : A)
| Throw (e : exception)
| AssertionFailed (expr : string)
| Undefined.

Arguments Return {A} a.
Arguments Throw {A} e.
Arguments AssertionFailed {A} expr.
Arguments Undefined {A}.

Definition bind {A B : Type} (m : outcome A) (k : A -> outcome B) : outcome B :=
  match m with
  | Return a => k a
  | Throw e => Throw e
  | AssertionFailed s => AssertionFailed s
  | Undefined => Undefined
  end.

Declare Scope outcome_scope.
Delimit Scope outcome_scope with outcome.
Notation "x <- m ;; k" := (bind m (fun x => k))
  (at level 61, m at next level, right associativity) : outcome_scope.
Notation "' pat <- m ;; k" := (bind m (fun x => match x with pat => k end))
  (at level 61, pat pattern, m at next level, right associativity)
  : outcome_scope.
Notation "m ;; k" := (bind m (fun _ => k))
  (at level 61, right associativity) : outcome_scope.
Open Scope outcome_scope.

(** [assert (cond)]: nothing at all under [NDEBUG]; otherwise [cond] is
    evaluated (it may itself throw) and a false value aborts. *)
Definition assert_ (NDEBUG : bool) (cond : outcome bool) (expr : string)
  : outcome unit :=
  if NDEBUG then Return tt
  else b <- cond ;; if b then Return tt else AssertionFailed expr.

(** [p->...] on a smart pointer: undefined on a null pointer. *)
Definition arrow {A : Type} (p : option A) : outcome A :=
  match p with
  | Some a => Return a
  | None => Undefined
  end.

Definition returned {A : Type} (m : outcome A) : bool :=
  match m with Return _ => true | _ => false end.


(** ** GraphPathValidation ([src/graph-path-validation.cc]) *)

Module GraphPathValidation.
Section Model.
(** Build configuration. *)
Variable NDEBUG : bool.

(** [Configuration_t], [value_type] (time), the non-composite path classes
    of hpp-core, and the node objects that [graph::NodePtr_t] points to. *)
Context {Configuration value_type Leaf Node : Type}.
Context {Node_eqdec : EqDec Node}.

Definition interval_t : Type := (value_type * value_type)%type.
Definition NodePtr_t : Type := option Node.

(** [origNode == oldOnode]: equality of (possibly null) shared pointers. *)
Definition NodePtr_eqb (a b : NodePtr_t) : bool :=
  match a, b with
  | Some x, Some y => if eq_dec x y then true else false
  | None, None => true
  | _, _ => false
  end.

(** A [PathPtr_t] is either a [PathVector] (what [HPP_DYNAMIC_PTR_CAST
    (PathVector, path)] tests) or a path of another class.  A [PathVector]
    is made by [PathVector::create (outputSize, outputDerivativeSize)] and
    filled by [appendPath]. *)
Unset Elimination Schemes.
Inductive Path : Type :=
| Atom (a : Leaf)
| PathVector (outputSize outputDerivativeSize : nat) (paths : list Path).
Set Elimination Schemes.

(** The virtual methods of [core::Path] used by the validation. *)
Class PathOps : Type := {
  timeRange : Path -> interval_t;
  (* bool operator() (q, t): None when the projection fails *)
  eval : Path -> value_type -> option Configuration;
  extract : Path -> interval_t -> Path;
  copy : Path -> Path;
  initial : Path -> Configuration;
  end_ : Path -> Configuration
}.
Context {ops : PathOps}.

(** The wrapped [core::PathValidation]: result and [validPart]. *)
Record PathValidation : Type := {
  pv_validate : Path -> bool -> bool * Path
}.

(** The constraint graph as the validation queries it. *)
Record Graph : Type := {
  getNode : Configuration -> outcome NodePtr_t
}.

(** The members of [GraphPathValidation]. *)
Record t : Type := {
  pathValidation_ : PathValidation;
  constraintGraph_ : option Graph
}.

(** Lines 23-31: the constructor leaves [constraintGraph_] null. *)
Definition create (pathValidation : PathValidation) : t :=
  {| pathValidation_ := pathValidation; constraintGraph_ := None |}.

Variable self : t.

(** [constraintGraph_->getNode (q)] *)
Definition constraintGraph_getNode (q : Configuration) : outcome NodePtr_t :=
  g <- arrow (constraintGraph_ self) ;; getNode g q.

(** [path->pathAtRank (i)]; the loops below only use ranks below
    [numberPaths ()]. *)
Definition pathAtRank (paths : list Path) (i : nat) : Path :=
  nth i paths (PathVector 0 0 []).

(** Lines 109-169: [impl_validate (const PathPtr_t&, ...)] once the dynamic
    cast to [PathVector] has failed. *)
Definition impl_validate_single (path : Path) (reverse : bool)
  : outcome (bool * Path) :=
  let '(valid, pathNoCollision) :=
    pv_validate (pathValidation_ self) path reverse in
  if valid then Return (true, path)
  else
    let newTR := timeRange pathNoCollision in
    let oldTR := timeRange path in
    match eval pathNoCollision (fst newTR) with
    | None => Throw (logic_error
        "Initial configuration of the valid part cannot be projected.")
    | Some q =>
    origNode <- constraintGraph_getNode q ;;
    match eval pathNoCollision (snd newTR) with
    | None => Throw (logic_error
        "End configuration of the valid part cannot be projected.")
    | Some q =>
    (* try { destNode = constraintGraph_->getNode (q); }
       catch (const std::logic_error& e) { ...; return false; } *)
    match constraintGraph_getNode q with
    | Throw (logic_error _) =>
        Return (false, extract path (fst oldTR, fst oldTR))
    | tried =>
    destNode <- tried ;;
    match eval path (fst oldTR) with
    | None => Throw (logic_error
        "Initial configuration of the path to be validated cannot be projected.")
    | Some q =>
    oldOnode <- constraintGraph_getNode q ;;
    match eval path (snd oldTR) with
    | None => Throw (logic_error
        "End configuration of the path to be validated cannot be projected.")
    | Some q =>
    oldDnode <- constraintGraph_getNode q ;;
    if NodePtr_eqb origNode oldOnode && NodePtr_eqb destNode oldDnode
    then Return (false, pathNoCollision)
    else Return (false, extract path (fst oldTR, fst oldTR))
    end end end end end.

(** Lines 62-100: [impl_validate (const PathVectorPtr_t&, ...)].
    [validated r] lists, rank by rank, what the recursive call
    [impl_validate (path->pathAtRank (i), r, validSubPart, report)] gives;
    the loops read it at the ranks they reach, in their own order. *)
Section PathVectorCase.
Variable path : Path.
Variables outputSize outputDerivativeSize : nat.
Variable paths : list Path.
Variable validated : bool -> list (outcome (bool * Path)).

Definition numberPaths : nat := List.length paths.

(** [for (size_t v = 0; v < i; v++)
       p->appendPath (path->pathAtRank(v)->copy());] *)
Definition forward_copies (i : nat) : list Path :=
  fold_left (fun p v => p ++ [copy (pathAtRank paths v)]) (seq 0 i) [].

(** [for (long int v = path->numberPaths () - 1; v > i; v--)
       p->appendPath (path->pathAtRank(i)->copy());] *)
Definition reverse_copies (i : nat) : list Path :=
  fold_left (fun p (v : nat) => p ++ [copy (pathAtRank paths i)])
            (rev (seq (S i) (numberPaths - 1 - i))) [].

(** [for (size_t i = 0; i != path->numberPaths (); i++)], entered at rank
    [i] with [remaining = numberPaths () - i] iterations to go. *)
Fixpoint forward_loop (remaining i : nat) : outcome (bool * Path) :=
  match remaining with
  | 0 => Return (true, path)
  | S remaining' =>
      '(valid, validSubPart) <- nth i (validated false) Undefined ;;
      if negb valid
      then Return (false,
             PathVector outputSize outputDerivativeSize
                        (forward_copies i ++ [validSubPart]))
      else forward_loop remaining' (S i)
  end.

(** [for (long int i = path->numberPaths () - 1; i >= 0; i--)], entered
    with [i + 1 = next]. *)
Fixpoint reverse_loop (next : nat) : outcome (bool * Path) :=
  match next with
  | 0 => Return (true, path)
  | S i =>
      '(valid, validSubPart) <- nth i (validated true) Undefined ;;
      if negb valid
      then Return (false,
             PathVector outputSize outputDerivativeSize
                        (reverse_copies i ++ [validSubPart]))
      else reverse_loop i
  end.

Definition impl_validate_PathVector (reverse : bool)
  : outcome (bool * Path) :=
  if reverse then
    assert_ NDEBUG (Return (negb reverse))
      "!reverse && This has never been tested with reverse path" ;;
    reverse_loop numberPaths
  else forward_loop numberPaths 0.
End PathVectorCase.

(** Lines 102-107: the dispatch on the dynamic type of [path]. *)
Fixpoint impl_validate (path : Path) (reverse : bool) {struct path}
  : outcome (bool * Path) :=
  match path with
  | PathVector outputSize outputDerivativeSize paths =>
      impl_validate_PathVector path outputSize outputDerivativeSize paths
        (fun r => map (fun sub => impl_validate sub r) paths) reverse
  | Atom _ => impl_validate_single path reverse
  end.

(** Lines 33-43: [validate (path, reverse, validPart)].  The three overloads
    start with [assert (path)]: here a [Path] is never the null pointer. *)
Definition validate (path : Path) (reverse : bool) : outcome (bool * Path) :=
  '(success, validPart) <- impl_validate path reverse ;;
  assert_ NDEBUG
    (Return (match constraintGraph_ self with
             | Some _ => true
             | None => false
             end))
    "constraintGraph_" ;;
  assert_ NDEBUG
    (n <- constraintGraph_getNode (initial validPart) ;;
     Return (match n with Some _ => true | None => false end))
    "constraintGraph_->getNode (validPart->initial ())" ;;
  assert_ NDEBUG
    (n <- constraintGraph_getNode (end_ validPart) ;;
     Return (match n with Some _ => true | None => false end))
    "constraintGraph_->getNode (validPart->end     ())" ;;
  Return (success, validPart).

(** Lines 45-52: [validate (path, reverse, validPart, ValidationReport&)]. *)
Definition validate_ValidationReport (path : Path) (reverse : bool)
  : outcome (bool * Path) :=
  impl_validate path reverse.

(** Lines 54-60: [validate (path, reverse, validPart, report)]. *)
Definition validate_report (path : Path) (reverse : bool)
  : outcome (bool * Path) :=
  impl_validate path reverse.

(** *** Notions used to state the properties *)

(** What the wrapped validator says about a whole path.
    The wrapped validator is only ever called on non-composite paths; a
    composite path is fully valid when all the paths it is made of are. *)
Fixpoint fully_valid (reverse : bool) (path : Path) {struct path} : bool :=
  match path with
  | Atom _ => fst (pv_validate (pathValidation_ self) path reverse)
  | PathVector _ _ paths => forallb (fully_valid reverse) paths
  end.

(** The zero-length part
    [path->extract (std::make_pair (oldTR.first, oldTR.first))]. *)
Definition degenerate (path : Path) : Path :=
  extract path (fst (timeRange path), fst (timeRange path)).

(** The node of the configuration of [path] at time [t], as lines 119-123
    and 152-157 compute it: project, then classify. *)
Definition node_at (g : Graph) (path : Path) (t : value_type)
  : outcome NodePtr_t :=
  match eval path t with
  | None => Throw (logic_error "cannot be projected")
  | Some q => getNode g q
  end.

(** Both ends of [part] classify, and to the same nodes as the ends of
    [path]. *)
Definition same_state_pair (g : Graph) (part path : Path) : Prop :=
  exists origNode destNode : NodePtr_t,
    node_at g part (fst (timeRange part)) = Return origNode /\
    node_at g part (snd (timeRange part)) = Return destNode /\
    node_at g path (fst (timeRange path)) = Return origNode /\
    node_at g path (snd (timeRange path)) = Return destNode.

(** The result at rank [i] lets the loop go on. *)
Definition passes (validated : bool -> list (outcome (bool * Path)))
    (reverse : bool) (i : nat) : Prop :=
  exists validSubPart,
    nth i (validated reverse) Undefined = Return (true, validSubPart).

(** What the loop body does when it stops at a rank whose result is [r]. *)
Definition stop_with (o d : nat) (copies : list Path)
    (r : outcome (bool * Path))
  : outcome (bool * Path) :=
  '(_, validSubPart) <- r ;;
  Return (false, PathVector o d (copies ++ [validSubPart])).

(** The reverse branch of the [PathVector] case starts with
    [assert (!reverse && ...)]: only a build with [NDEBUG] gets past it. *)
Definition reverse_guard_passes (path : Path) (reverse : bool) : Prop :=
  NDEBUG = true \/ reverse = false \/ exists a, path = Atom a.

(** What lines 39-41 assert of the part that [impl_validate] produced. *)
Definition postconditions_hold (validPart : Path) : Prop :=
  NDEBUG = true \/
  exists g n1 n2,
    constraintGraph_ self = Some g /\
    getNode g (initial validPart) = Return (Some n1) /\
    getNode g (end_ validPart) = Return (Some n2).

(** [validate] returns [r], whichever overload is called; the
    three-argument one provided its own assertions hold. *)
Definition validate_returns (path : Path) (reverse : bool) (r : bool * Path)
  : Prop :=
  validate_report path reverse = Return r /\
  validate_ValidationReport path reverse = Return r /\
  (postconditions_hold (snd r) -> validate path reverse = Return r).

(** The projection that fails first, among those of lines 119-156, with the
    message of the [std::logic_error] thrown for it. *)
Inductive projection_failure (g : Graph) (path pathNoCollision : Path)
  : string -> Prop :=
| valid_part_initial :
    eval pathNoCollision (fst (timeRange pathNoCollision)) = None ->
    projection_failure g path pathNoCollision
      "Initial configuration of the valid part cannot be projected."
| valid_part_end origNode :
    node_at g pathNoCollision (fst (timeRange pathNoCollision))
      = Return origNode ->
    eval pathNoCollision (snd (timeRange pathNoCollision)) = None ->
    projection_failure g path pathNoCollision
      "End configuration of the valid part cannot be projected."
| path_initial origNode destNode :
    node_at g pathNoCollision (fst (timeRange pathNoCollision))
      = Return origNode ->
    node_at g pathNoCollision (snd (timeRange pathNoCollision))
      = Return destNode ->
    eval path (fst (timeRange path)) = None ->
    projection_failure g path pathNoCollision
      "Initial configuration of the path to be validated cannot be projected."
| path_end origNode destNode oldOnode :
    node_at g pathNoCollision (fst (timeRange pathNoCollision))
      = Return origNode ->
    node_at g pathNoCollision (snd (timeRange pathNoCollision))
      = Return destNode ->
    node_at g path (fst (timeRange path)) = Return oldOnode ->
    eval path (snd (timeRange path)) = None ->
    projection_failure g path pathNoCollision
      "End configuration of the path to be validated cannot be projected.".

(** How the part returned with [success] for [path], validated in the
    direction [reverse], relates to [path], to the wrapped validator and to
    the graph.  With [true] it is [path] itself, and [path] is fully valid.
    With [false] and a path that is not composite, the wrapped validator
    rejected [path], and the part is either the truncated part it left,
    which has its ends in the same nodes as [path], or the zero-length part
    at the start of [path].  With [false] and a [PathVector] validated
    forward, the part is made of copies of the leading fully valid elements
    followed by a part so related, with [false], to the first element that
    is not fully valid. *)
Inductive graph_consistent (g : Graph) (reverse : bool)
  : bool -> Path -> Path -> Prop :=
| consistent_whole path :
    fully_valid reverse path = true ->
    graph_consistent g reverse true path path
| consistent_same_state_pair part a :
    pv_validate (pathValidation_ self) (Atom a) reverse = (false, part) ->
    same_state_pair g part (Atom a) ->
    graph_consistent g reverse false part (Atom a)
| consistent_degenerate a :
    fst (pv_validate (pathValidation_ self) (Atom a) reverse) = false ->
    graph_consistent g reverse false (degenerate (Atom a)) (Atom a)
| consistent_element o d paths k part :
    reverse = false ->
    k < List.length paths ->
    (forall j, j < k -> fully_valid false (pathAtRank paths j) = true) ->
    fully_valid false (pathAtRank paths k) = false ->
    graph_consistent g reverse false part (pathAtRank paths k) ->
    graph_consistent g reverse false
      (PathVector o d (map copy (firstn k paths) ++ [part]))
      (PathVector o d paths).

End Model.
End GraphPathValidation.

(** ** GraphSteeringMethod ([src/graph-steering-method.cc]) *)

Module GraphSteeringMethod.
Section Model.
(** [Configuration_t], the states and edges of the constraint graph, and the
    paths that edges build. *)
Context {Configuration State Edge Path : Type}.

Definition PathPtr_t : Type := option Path.
Definition Edges_t : Type := list Edge.

(** [graph::Graph] as [impl_compute] queries it; both queries may throw. *)
Record Graph : Type := {
  getState : Configuration -> outcome State;
  getEdges : State -> State -> outcome Edges_t
}.

(** [problem_]: the steering method reads its constraint graph only. *)
Record Problem : Type := {
  constraintGraph : option Graph
}.

Record t : Type := {
  problem_ : Problem
}.

(** [edge->build (path, q1, q2)]: the result, and what the call leaves in
    the out-parameter [path]. *)
Variable build : Edge -> Configuration -> Configuration -> bool * PathPtr_t.

(** The order in which the two arguments of [getEdges] are evaluated is
    the compiler's choice. *)
Variable right_to_left : bool.

Variable self : t.
Variables q1 q2 : Configuration.

(** [possibleEdges.back ()] and [possibleEdges.pop_back ()] *)
Fixpoint back (edges : Edges_t) : option Edge :=
  match edges with
  | [] => None
  | [e] => Some e
  | _ :: rest => back rest
  end.

Definition pop_back (edges : Edges_t) : Edges_t := removelast edges.

Definition inspect {A : Type} (a : A) : {b : A | a = b} := exist _ a eq_refl.

(** Lines 83-89:
    [while (!possibleEdges.empty()) {
       if (possibleEdges.back ()->build (path, q1, q2)) return path;
       possibleEdges.pop_back ();
     }
     return PathPtr_t ();] *)
Equations? while_loop (possibleEdges : Edges_t) : PathPtr_t
  by wf (List.length possibleEdges) lt :=
  while_loop possibleEdges with inspect (back possibleEdges) := {
    | exist _ None _ => None
    | exist _ (Some e) Hback with build e q1 q2 := {
        | (true, path) => path
        | (false, _) => while_loop (pop_back possibleEdges) } }.
Proof.
  destruct possibleEdges as [| e0 rest]; [discriminate Hback |].
  unfold pop_back.
  rewrite (app_removelast_last e0 (l := e0 :: rest)) at 2 by discriminate.
  rewrite length_app. cbn [List.length]. lia.
Qed.

(** Lines 73-74: [graph.getEdges (graph.getState (q1), graph.getState (q2))] *)
Definition query (graph : Graph) : outcome Edges_t :=
  if right_to_left
  then s2 <- getState graph q2 ;; s1 <- getState graph q1 ;;
       getEdges graph s1 s2
  else s1 <- getState graph q1 ;; s2 <- getState graph q2 ;;
       getEdges graph s1 s2.

(** Lines 68-90: [impl_compute (q1, q2)] *)
Definition impl_compute : outcome PathPtr_t :=
  graph <- arrow (constraintGraph (problem_ self)) ;;
  match query graph with
  | Throw (logic_error _) => Return None
  | tried =>
      possibleEdges <- tried ;;
      Return (while_loop possibleEdges)
  end.

(** The candidates after [e] all fail to build. *)
Definition all_fail (edges : Edges_t) : Prop :=
  Forall (fun e => fst (build e q1 q2) = false) edges.

End Model.
End GraphSteeringMethod.

(** ** NodeSelector ([include/hpp/manipulation/graph/node-selector.hh]) *)

Module NodeSelector.
Section Model.
(** [Configuration_t] and [Node]. *)
Context {Configuration Node : Type}.

(** The header: the member [orderedStates_], "list of the states of one
    end-effector, ordered by priority".  The states are held by weak
    pointer; here by value. *)
Record t : Type := {
  orderedStates_ : list Node
}.

(** The constraint predicate of a state: whether a configuration satisfies
    it. *)
Variable contains : Node -> Configuration -> bool.

(** Modelled from the spec: the body of [NodeSelector::getState], declared in
    the header and defined in a file that is not among the sources.  "Iterates
    the sequence in order and returns the first State whose constraint
    predicate is satisfied by the configuration.  Fails with a no matching
    state condition if none match". *)
Fixpoint first_containing (states : list Node) (config : Configuration)
  : option Node :=
  match states with
  | [] => None
  | state :: rest =>
      if contains state config then Some state
      else first_containing rest config
  end.

(** Modelled from the spec: [getState (config)], failing with a
    [std::logic_error] when no state matches. *)
Definition getState (self : t) (config : Configuration) : outcome Node :=
  match first_containing (orderedStates_ self) config with
  | Some state => Return state
  | None => Throw (logic_error "no matching state")
  end.

(** No state of [states] contains [config]. *)
Definition none_contains (states : list Node) (config : Configuration)
  : Prop :=
  Forall (fun state => contains state config = false) states.

End Model.
End NodeSelector.

(** * Part I, continued: worlds to run the model in *)

(** ** A world to run the validation in

    Configurations and times are integers and a path on a time interval
    [[lo, hi]] is the identity [q (t) = t]; a path may carry times at which
    its configuration does not project.  The graph puts the configurations
    [0..9] in node 0, [10..19] in node 1, has no node for [20..29] (its
    [getNode] throws there), puts [30..] in node 2 and answers a null node
    below 0.  The wrapped validator knows one obstacle: forward, a path is
    valid when it ends before the obstacle and is otherwise cut just before
    it; in reverse, it is valid when it starts after the obstacle and is
    otherwise cut just after it. *)
Module Line.
Import GraphPathValidation.

Record Segment : Type := {
  lo : Z;
  hi : Z;
  unprojectable : list Z
}.

Definition LinePath : Type := Path (Leaf := Segment).

Fixpoint start_time (path : LinePath) : Z :=
  match path with
  | Atom s => lo s
  | PathVector _ _ paths =>
      match paths with
      | first :: _ => start_time first
      | [] => 0%Z
      end
  end.

Fixpoint end_time (path : LinePath) : Z :=
  match path with
  | Atom s => hi s
  | PathVector _ _ paths =>
      (fix last_end (l : list LinePath) : Z :=
         match l with
         | [] => 0%Z
         | [p] => end_time p
         | _ :: rest => last_end rest
         end) paths
  end.

Fixpoint bad_times (path : LinePath) : list Z :=
  match path with
  | Atom s => unprojectable s
  | PathVector _ _ paths => flat_map bad_times paths
  end.

#[export] Instance line_ops
  : PathOps (Configuration := Z) (value_type := Z) (Leaf := Segment) := {|
  timeRange path := (start_time path, end_time path);
  eval path t := if existsb (Z.eqb t) (bad_times path) then None else Some t;
  extract path tr :=
    Atom {| lo := fst tr; hi := snd tr; unprojectable := bad_times path |};
  copy path := path;
  initial path := start_time path;
  end_ path := end_time path
|}.

#[export] Instance nat_eqdec : EqDec nat := Nat.eq_dec.

Definition line_graph : Graph (Configuration := Z) (Node := nat) := {|
  getNode q :=
    if (q <? 0)%Z then Return None
    else if (q <? 10)%Z then Return (Some 0)
    else if (q <? 20)%Z then Return (Some 1)
    else if (q <? 30)%Z then Throw (logic_error "A configuration has no node")
    else Return (Some 2)
|}.

Definition obstacle_at (obstacle : Z) : PathValidation (Leaf := Segment) := {|
  pv_validate path reverse :=
    if reverse
    then if (obstacle <? start_time path)%Z then (true, path)
         else (false, extract path ((obstacle + 1)%Z, end_time path))
    else if (end_time path <? obstacle)%Z then (true, path)
         else (false, extract path (start_time path, (obstacle - 1)%Z))
|}.

(** A validator with the graph attached, and one fresh from [create]. *)
Definition validator (obstacle : Z) : t (Configuration := Z) (Node := nat) := {|
  pathValidation_ := obstacle_at obstacle;
  constraintGraph_ := Some line_graph
|}.

Definition segment (a b : Z) : LinePath :=
  Atom {| lo := a; hi := b; unprojectable := [] |}.

Definition segment_failing_at (a b : Z) (bad : list Z) : LinePath :=
  Atom {| lo := a; hi := b; unprojectable := bad |}.

End Line.

(** ** A graph to steer in

    States are tens of an integer configuration, there is none below 0;
    edges are numbers, and an edge builds a path (named after it) when its
    number is even. *)
Module Steering.
Import GraphSteeringMethod.

Definition build (e : nat) (q1 q2 : Z) : bool * PathPtr_t (Path := nat) :=
  if Nat.even e then (true, Some e) else (false, None).

Definition tens_graph
  : Graph (Configuration := Z) (State := nat) (Edge := nat) := {|
  getState q :=
    if (q <? 0)%Z then Throw (logic_error "A configuration has no node")
    else Return (Z.to_nat (q / 10));
  getEdges s1 s2 :=
    match s1, s2 with
    | 0, 0 => Return []
    | 0, 1 => Return [1; 2]
    | 1, 1 => Return [2; 4; 3]
    | 1, 0 => Return [1; 3]
    | _, _ => Throw (logic_error "unknown state")
    end
|}.

Definition steering : t := {|
  problem_ := {| constraintGraph := Some tens_graph |}
|}.


End Steering.

(** The example of the specification for the selector: states [A]
    (constraint [x > 0]) and [B] (always satisfied). *)
Module Selection.

Inductive AB : Type := A | B.

Definition AB_contains (state : AB) (x : Z) : bool :=
  match state with
  | A => (0 <? x)%Z
  | B => true
  end.

End Selection.

(** * Part II: properties *)

(** ** GraphPathValidation *)

Module GraphPathValidationProperties.
Import GraphPathValidation.

(** *** [assert] *)
Lemma assert_NDEBUG (NDEBUG : bool) (cond : outcome bool) (expr : string) :
  NDEBUG = true -> assert_ NDEBUG cond expr = Return tt.
Proof. intros ->. reflexivity. Qed.

Lemma assert_checks (NDEBUG : bool) (cond : outcome bool) (expr : string) :
  NDEBUG = false ->
  assert_ NDEBUG cond expr
  = (b <- cond ;; if b then Return tt else AssertionFailed expr).
Proof. intros ->. reflexivity. Qed.

Section Properties.
Variable NDEBUG : bool.
Context {Configuration value_type Leaf Node : Type}.
Context {Node_eqdec : EqDec Node}.
Context {ops : PathOps (Configuration := Configuration)
                       (value_type := value_type) (Leaf := Leaf)}.
Variable self : t (Configuration := Configuration) (Leaf := Leaf)
                  (Node := Node).
Local Abbreviation Path := (GraphPathValidation.Path (Leaf := Leaf)).
Local Abbreviation Graph :=
  (GraphPathValidation.Graph (Configuration := Configuration) (Node := Node)).

(** *** Induction on paths *)
Lemma Path_ind (P : Path -> Prop) :
  (forall a, P (Atom a)) ->
  (forall o d paths, Forall P paths -> P (PathVector o d paths)) ->
  forall path, P path.
Proof.
  intros HAtom HVector. fix IH 1. intros [a | o d paths].
  - apply HAtom.
  - apply HVector. induction paths as [| sub paths IHpaths].
    + constructor.
    + constructor; [apply IH | apply IHpaths].
Qed.

(** *** The copy loops *)
Lemma fold_left_append {A B : Type} (f : A -> B) (l : list A) (acc : list B) :
  fold_left (fun p v => p ++ [f v]) l acc = acc ++ map f l.
Proof.
  revert acc. induction l as [| x l IHl]; intros acc; cbn.
  - now rewrite app_nil_r.
  - rewrite IHl, <- app_assoc. reflexivity.
Qed.

Lemma map_nth_seq {A : Type} (l : list A) (dflt : A) (i : nat) :
  i <= List.length l ->
  map (fun v => nth v l dflt) (seq 0 i) = firstn i l.
Proof.
  revert i. induction l as [| x l IHl]; intros [| i] Hi; cbn in *; try lia;
    try reflexivity.
  f_equal. rewrite <- seq_shift, map_map. apply IHl. lia.
Qed.

Lemma forward_copies_firstn (paths : list Path) (i : nat) :
  i <= List.length paths ->
  forward_copies paths i = map copy (firstn i paths).
Proof.
  intros Hi. unfold forward_copies, pathAtRank.
  rewrite fold_left_append. cbn.
  rewrite <- (map_nth_seq paths (PathVector 0 0 []) Hi), map_map.
  reflexivity.
Qed.

Lemma map_const_repeat {A B : Type} (c : B) (l : list A) :
  map (fun _ => c) l = repeat c (List.length l).
Proof. induction l as [| x l IHl]; cbn; congruence. Qed.

Lemma reverse_copies_repeat (paths : list Path) (i : nat) :
  reverse_copies paths i
  = repeat (copy (pathAtRank paths i)) (numberPaths paths - 1 - i).
Proof.
  unfold reverse_copies. rewrite fold_left_append. cbn.
  now rewrite map_const_repeat, length_rev, length_seq.
Qed.

(** *** The two loops over the ranks of a [PathVector] *)
Section Loops.
Variable path : Path.
Variables o d : nat.
Variable paths : list Path.
Variable validated : bool -> list (outcome (bool * Path)).

Lemma forward_loop_completes (remaining i : nat) :
  (forall j, i <= j < i + remaining -> passes validated false j) ->
  forward_loop path o d paths validated remaining i = Return (true, path).
Proof.
  revert i. induction remaining as [| remaining IH]; intros i Hall; cbn.
  - reflexivity.
  - destruct (Hall i ltac:(lia)) as [vp Hvp]. rewrite Hvp. cbn.
    apply IH. intros j Hj. apply Hall. lia.
Qed.

Lemma forward_loop_stops (remaining i k : nat) :
  i <= k < i + remaining ->
  (forall j, i <= j < k -> passes validated false j) ->
  ~ passes validated false k ->
  forward_loop path o d paths validated remaining i
  = stop_with o d (forward_copies paths k) (nth k (validated false) Undefined).
Proof.
  revert i. induction remaining as [| remaining IH]; intros i Hk Hbefore Hstop.
  - lia.
  - cbn. destruct (Nat.eq_dec i k) as [-> | Hne].
    + unfold stop_with.
      destruct (nth k (validated false) Undefined) as [[[|] vsp] | | |] eqn:E;
        cbn; try reflexivity.
      exfalso. apply Hstop. exists vsp. exact E.
    + destruct (Hbefore i ltac:(lia)) as [vp Hvp]. rewrite Hvp. cbn.
      apply IH; [lia | intros j Hj; apply Hbefore; lia | exact Hstop].
Qed.

Lemma reverse_loop_completes (next : nat) :
  (forall j, j < next -> passes validated true j) ->
  reverse_loop path o d paths validated next = Return (true, path).
Proof.
  induction next as [| i IH]; intros Hall; cbn.
  - reflexivity.
  - destruct (Hall i ltac:(lia)) as [vp Hvp]. rewrite Hvp. cbn.
    apply IH. intros j Hj. apply Hall. lia.
Qed.

Lemma reverse_loop_stops (next i : nat) :
  i < next ->
  (forall j, i < j < next -> passes validated true j) ->
  ~ passes validated true i ->
  reverse_loop path o d paths validated next
  = stop_with o d (reverse_copies paths i) (nth i (validated true) Undefined).
Proof.
  induction next as [| n IH]; intros Hi Hafter Hstop.
  - lia.
  - cbn. destruct (Nat.eq_dec n i) as [-> | Hne].
    + unfold stop_with.
      destruct (nth i (validated true) Undefined) as [[[|] vsp] | | |] eqn:E;
        cbn; try reflexivity.
      exfalso. apply Hstop. exists vsp. exact E.
    + destruct (Hafter n ltac:(lia)) as [vp Hvp]. rewrite Hvp. cbn.
      apply IH; [lia | intros j Hj; apply Hafter; lia | exact Hstop].
Qed.

(** Either every rank of a range passes, or there is a first one (in the
    order of the loop) that does not. *)
Lemma forward_search (remaining i : nat) :
  (forall j, i <= j < i + remaining -> passes validated false j)
  \/ exists k, i <= k < i + remaining /\ ~ passes validated false k /\
       forall j, i <= j < k -> passes validated false j.
Proof.
  revert i. induction remaining as [| n IHn]; intros i.
  - left. intros j Hj. lia.
  - destruct (nth i (validated false) Undefined)
      as [[[|] vsp] | | |] eqn:E.
    2-5: right; exists i; split; [lia | split;
           [intros [vp Hvp]; congruence | intros j Hj; lia]].
    destruct (IHn (S i)) as [Hall | (k & Hk & Hstop & Hbefore)].
    + left. intros j Hj. destruct (Nat.eq_dec j i) as [-> | Hne].
      * exists vsp. exact E.
      * apply Hall. lia.
    + right. exists k. split; [lia | split; [exact Hstop |]].
      intros j Hj. destruct (Nat.eq_dec j i) as [-> | Hne].
      * exists vsp. exact E.
      * apply Hbefore. lia.
Qed.

Lemma reverse_search (next : nat) :
  (forall j, j < next -> passes validated true j)
  \/ exists k, k < next /\ ~ passes validated true k /\
       forall j, k < j < next -> passes validated true j.
Proof.
  induction next as [| n IHn].
  - left. intros j Hj. lia.
  - destruct (nth n (validated true) Undefined)
      as [[[|] vsp] | | |] eqn:E.
    2-5: right; exists n; split; [lia | split;
           [intros [vp Hvp]; congruence | intros j Hj; lia]].
    destruct IHn as [Hall | (k & Hk & Hstop & Hafter)].
    + left. intros j Hj. destruct (Nat.eq_dec j n) as [-> | Hne].
      * exists vsp. exact E.
      * apply Hall. lia.
    + right. exists k. split; [lia | split; [exact Hstop |]].
      intros j Hj. destruct (Nat.eq_dec j n) as [-> | Hne].
      * exists vsp. exact E.
      * apply Hafter. lia.
Qed.

(** The loops, by cases on that rank. *)
Lemma forward_loop_cases :
  ((forall j, j < numberPaths paths -> passes validated false j) /\
   forward_loop path o d paths validated (numberPaths paths) 0
   = Return (true, path))
  \/ exists k, k < numberPaths paths /\ ~ passes validated false k /\
       (forall j, j < k -> passes validated false j) /\
       forward_loop path o d paths validated (numberPaths paths) 0
       = stop_with o d (forward_copies paths k)
           (nth k (validated false) Undefined).
Proof.
  destruct (forward_search (numberPaths paths) 0)
    as [Hall | (k & Hk & Hstop & Hbefore)].
  - left. split.
    + intros j Hj. apply Hall. lia.
    + apply forward_loop_completes. exact Hall.
  - right. exists k. repeat split; try assumption; try lia.
    + intros j Hj. apply Hbefore. lia.
    + apply forward_loop_stops; assumption.
Qed.

Lemma reverse_loop_cases :
  ((forall j, j < numberPaths paths -> passes validated true j) /\
   reverse_loop path o d paths validated (numberPaths paths)
   = Return (true, path))
  \/ exists k, k < numberPaths paths /\ ~ passes validated true k /\
       (forall j, k < j < numberPaths paths -> passes validated true j) /\
       reverse_loop path o d paths validated (numberPaths paths)
       = stop_with o d (reverse_copies paths k)
           (nth k (validated true) Undefined).
Proof.
  destruct (reverse_search (numberPaths paths))
    as [Hall | (k & Hk & Hstop & Hafter)].
  - left. split; [exact Hall |].
    apply reverse_loop_completes. exact Hall.
  - right. exists k. repeat split; try assumption.
    apply reverse_loop_stops; assumption.
Qed.

Lemma stop_with_not_true (copies : list Path) r validPart :
  stop_with o d copies r <> Return (true, validPart).
Proof.
  unfold stop_with. destruct r as [[v vsp] | | |]; cbn; discriminate.
Qed.
End Loops.

(** The recursive call at rank [j]. *)
Lemma nth_validated (paths : list Path) (reverse : bool) (j : nat) :
  j < List.length paths ->
  nth j (map (fun sub => impl_validate NDEBUG self sub reverse) paths) Undefined
  = impl_validate NDEBUG self (pathAtRank paths j) reverse.
Proof.
  intros Hj. unfold pathAtRank.
  rewrite (nth_indep _ Undefined
             (impl_validate NDEBUG self (PathVector 0 0 []) reverse))
    by now rewrite length_map.
  apply (map_nth (fun sub => impl_validate NDEBUG self sub reverse)).
Qed.

Lemma impl_validate_PathVector_eq (o d : nat) (paths : list Path) reverse :
  impl_validate NDEBUG self (PathVector o d paths) reverse
  = impl_validate_PathVector NDEBUG (PathVector o d paths) o d paths
      (fun r => map (fun sub => impl_validate NDEBUG self sub r) paths) reverse.
Proof. reflexivity. Qed.

(** *** Fully valid paths *)

Lemma impl_validate_single_valid (path : Path) (reverse : bool) :
  fst (pv_validate (pathValidation_ self) path reverse) = true ->
  impl_validate_single self path reverse = Return (true, path).
Proof.
  unfold impl_validate_single. intros H.
  destruct (pv_validate (pathValidation_ self) path reverse) as [valid p'].
  cbn in H. subst valid. reflexivity.
Qed.

Lemma impl_validate_fully_valid (path : Path) (reverse : bool) :
  NDEBUG = true \/ reverse = false ->
  fully_valid self reverse path = true ->
  impl_validate NDEBUG self path reverse = Return (true, path).
Proof.
  intros Hguard. induction path as [a | o d paths IH] using Path_ind;
    intros Hvalid.
  - cbn. now apply impl_validate_single_valid.
  - rewrite impl_validate_PathVector_eq. unfold impl_validate_PathVector.
    cbn in Hvalid. rewrite forallb_forall in Hvalid.
    rewrite Forall_forall in IH.
    assert (Hpasses : forall j, j < List.length paths ->
              passes
                (fun r => map (fun sub => impl_validate NDEBUG self sub r) paths)
                     reverse j).
    { intros j Hj. exists (pathAtRank paths j).
      rewrite nth_validated by exact Hj.
      apply IH; [| apply Hvalid]; apply nth_In; exact Hj. }
    destruct reverse.
    + destruct Hguard as [HN | Hr]; [| discriminate].
      rewrite assert_NDEBUG by exact HN. cbn.
      apply reverse_loop_completes. exact Hpasses.
    + apply forward_loop_completes. intros j Hj. apply Hpasses.
      unfold numberPaths in Hj. lia.
Qed.

Lemma fully_valid_of_impl_validate (path : Path) (reverse : bool) validPart :
  impl_validate NDEBUG self path reverse = Return (true, validPart) ->
  fully_valid self reverse path = true /\ validPart = path.
Proof.
  revert validPart.
  induction path as [a | o d paths IH] using Path_ind; intros validPart Hret.
  - cbn in *. unfold impl_validate_single in Hret.
    destruct (pv_validate (pathValidation_ self) (Atom a) reverse)
      as [[|] newp]; cbn in *.
    + split; congruence.
    + repeat match type of Hret with
        | match ?x with _ => _ end = _ => destruct x; cbn in Hret
        | bind ?x _ = _ => destruct x; cbn in Hret
        | (if ?c then _ else _) = _ => destruct c
      end; try discriminate.
  - rewrite impl_validate_PathVector_eq in Hret.
    unfold impl_validate_PathVector in Hret.
    set (validated :=
           fun r => map (fun sub => impl_validate NDEBUG self sub r) paths)
    in *.
    assert (Hall : forall j, j < numberPaths paths ->
                     passes validated reverse j /\
                     validPart = PathVector o d paths).
    { destruct reverse.
      - destruct (assert_ NDEBUG (Return (negb true)) _); cbn in Hret;
          try discriminate.
        destruct (reverse_loop_cases (PathVector o d paths) o d paths validated)
          as [[Hall Heq] | (k & _ & _ & _ & Heq)]; rewrite Heq in Hret.
        + intros j Hj. split; [now apply Hall | congruence].
        + now apply stop_with_not_true in Hret.
      - destruct (forward_loop_cases (PathVector o d paths) o d paths validated)
          as [[Hall Heq] | (k & _ & _ & _ & Heq)]; rewrite Heq in Hret.
        + intros j Hj. split; [now apply Hall | congruence].
        + now apply stop_with_not_true in Hret. }
    split.
    + cbn. rewrite forallb_forall. intros sub Hin.
      destruct (In_nth _ _ (PathVector 0 0 []) Hin) as (j & Hj & Hnth).
      destruct (Hall j Hj) as [[vp Hvp] _].
      unfold validated in Hvp. rewrite nth_validated in Hvp by exact Hj.
      rewrite Forall_forall in IH. subst sub.
      apply (IH _ (nth_In _ _ Hj) _ Hvp).
    + destruct paths as [| sub paths'].
      * destruct reverse; cbn in Hret.
        -- destruct (assert_ NDEBUG (Return false) _); cbn in Hret; congruence.
        -- congruence.
      * apply (Hall 0). cbn. lia.
Qed.

(** *** Non-composite paths *)
Lemma NodePtr_eqb_eq (a b : NodePtr_t) : NodePtr_eqb a b = true <-> a = b.
Proof.
  destruct a as [x |], b as [y |]; cbn; try (split; congruence).
  destruct (eq_dec x y); split; congruence.
Qed.

Lemma node_at_Return (g : Graph) path t n :
  node_at g path t = Return n ->
  exists q, eval path t = Some q /\ getNode g q = Return n.
Proof.
  unfold node_at. destruct (eval path t) as [q |]; [| discriminate].
  intros H. exists q. split; [reflexivity | exact H].
Qed.

(** The path taken through lines 114-169 when nothing throws. *)
Lemma impl_validate_single_collision (g : Graph) path reverse pathNoCollision
      origNode destNode oldOnode oldDnode :
  constraintGraph_ self = Some g ->
  pv_validate (pathValidation_ self) path reverse = (false, pathNoCollision) ->
  node_at g pathNoCollision (fst (timeRange pathNoCollision))
    = Return origNode ->
  node_at g pathNoCollision (snd (timeRange pathNoCollision))
    = Return destNode ->
  node_at g path (fst (timeRange path)) = Return oldOnode ->
  node_at g path (snd (timeRange path)) = Return oldDnode ->
  impl_validate_single self path reverse
  = Return (false,
      if NodePtr_eqb origNode oldOnode && NodePtr_eqb destNode oldDnode
      then pathNoCollision else degenerate path).
Proof.
  intros Hg Hpv H1 H2 H3 H4.
  apply node_at_Return in H1 as (q1 & E1 & N1).
  apply node_at_Return in H2 as (q2 & E2 & N2).
  apply node_at_Return in H3 as (q3 & E3 & N3).
  apply node_at_Return in H4 as (q4 & E4 & N4).
  unfold impl_validate_single, constraintGraph_getNode, degenerate.
  rewrite Hpv, Hg. cbn.
  rewrite E1. cbn. rewrite N1. cbn. rewrite E2, N2. cbn.
  rewrite E3, N3. cbn. rewrite E4, N4. cbn.
  destruct (NodePtr_eqb origNode oldOnode && NodePtr_eqb destNode oldDnode);
    reflexivity.
Qed.

(** Every way for a non-composite path to come back from [impl_validate]. *)
Lemma impl_validate_single_Return (g : Graph) path reverse success validPart :
  constraintGraph_ self = Some g ->
  impl_validate_single self path reverse = Return (success, validPart) ->
  (success = true /\ validPart = path)
  \/ (success = false /\ same_state_pair g validPart path)
  \/ (success = false /\ validPart = degenerate path).
Proof.
  intros Hg. unfold impl_validate_single, constraintGraph_getNode, degenerate.
  rewrite Hg. cbn.
  destruct (pv_validate (pathValidation_ self) path reverse) as [[|] newp].
  { intros [= <- <-]. left. split; reflexivity. }
  destruct (eval newp (fst (timeRange newp))) as [q1 |] eqn:E1;
    [| discriminate].
  destruct (getNode g q1) as [origNode | | |] eqn:N1; cbn; try discriminate.
  destruct (eval newp (snd (timeRange newp))) as [q2 |] eqn:E2;
    [| discriminate].
  destruct (getNode g q2) as [destNode | [what | what] | |] eqn:N2; cbn;
    try discriminate.
  2: { intros [= <- <-]. right. right. split; reflexivity. }
  destruct (eval path (fst (timeRange path))) as [q3 |] eqn:E3;
    [| discriminate].
  destruct (getNode g q3) as [oldOnode | | |] eqn:N3; cbn; try discriminate.
  destruct (eval path (snd (timeRange path))) as [q4 |] eqn:E4;
    [| discriminate].
  destruct (getNode g q4) as [oldDnode | | |] eqn:N4; cbn; try discriminate.
  destruct (NodePtr_eqb origNode oldOnode) eqn:Ho;
    destruct (NodePtr_eqb destNode oldDnode) eqn:Hd; cbn;
    intros [= <- <-]; try (right; right; split; reflexivity).
  right. left. split; [reflexivity |].
  apply NodePtr_eqb_eq in Ho, Hd. subst oldOnode oldDnode.
  exists origNode, destNode. unfold node_at.
  rewrite E1, E2, E3, E4. repeat split; assumption.
Qed.

(** *** The three-argument overload and its assertions *)

Lemma validate_of_impl_validate path reverse r :
  impl_validate NDEBUG self path reverse = Return r ->
  postconditions_hold NDEBUG self (snd r) ->
  validate NDEBUG self path reverse = Return r.
Proof.
  intros Himpl Hpost. unfold validate. rewrite Himpl. cbn.
  destruct r as [success validPart]. cbn in Hpost.
  destruct Hpost as [HN | (g & n1 & n2 & Hg & H1 & H2)].
  - rewrite !assert_NDEBUG by exact HN. reflexivity.
  - unfold assert_, constraintGraph_getNode. rewrite Hg. cbn.
    rewrite H1, H2. cbn. destruct NDEBUG; reflexivity.
Qed.

Lemma impl_validate_of_validate path reverse r :
  validate NDEBUG self path reverse = Return r ->
  impl_validate NDEBUG self path reverse = Return r.
Proof.
  unfold validate.
  destruct (impl_validate NDEBUG self path reverse) as [[b vp] | | |];
    cbn; try discriminate.
  repeat match goal with
  | |- bind ?m _ = _ -> _ => destruct m; cbn; try discriminate
  end.
  trivial.
Qed.

Lemma validate_returns_intro path reverse r :
  impl_validate NDEBUG self path reverse = Return r ->
  validate_returns NDEBUG self path reverse r.
Proof.
  intros H. repeat split; try exact H.
  now apply validate_of_impl_validate.
Qed.

(** *** Properties of [validate] *)

(** C1.  A non-composite path is rejected by the wrapped validator, and the
    ends of the truncated part and of the path all project and classify.
    When the truncated part starts and ends in the same nodes as the path,
    [validate] returns the truncated part, with [false]; otherwise it returns
    the zero-length part extracted at the start time of the path, with
    [false]. *)
Theorem validate_truncated_part
    (a : Leaf) (reverse : bool) (g : Graph) (pathNoCollision : Path)
    (origNode destNode oldOnode oldDnode : NodePtr_t) :
  constraintGraph_ self = Some g ->
  pv_validate (pathValidation_ self) (Atom a) reverse
    = (false, pathNoCollision) ->
  node_at g pathNoCollision (fst (timeRange pathNoCollision))
    = Return origNode ->
  node_at g pathNoCollision (snd (timeRange pathNoCollision))
    = Return destNode ->
  node_at g (Atom a) (fst (timeRange (Atom a))) = Return oldOnode ->
  node_at g (Atom a) (snd (timeRange (Atom a))) = Return oldDnode ->
  (origNode = oldOnode /\ destNode = oldDnode ->
     validate_returns NDEBUG self (Atom a) reverse (false, pathNoCollision))
  /\
  (~ (origNode = oldOnode /\ destNode = oldDnode) ->
     validate_returns NDEBUG self (Atom a) reverse
       (false, degenerate (Atom a))).
Proof.
  intros Hg Hpv H1 H2 H3 H4.
  pose proof (impl_validate_single_collision _ _ Hg Hpv H1 H2 H3 H4) as Himpl.
  split; intros Hnodes; apply validate_returns_intro; cbn; rewrite Himpl.
  - destruct Hnodes as [-> ->].
    rewrite !(proj2 (NodePtr_eqb_eq _ _) eq_refl). reflexivity.
  - destruct (NodePtr_eqb origNode oldOnode) eqn:Ho;
      destruct (NodePtr_eqb destNode oldDnode) eqn:Hd; cbn; try reflexivity.
    exfalso. apply Hnodes. split; now apply NodePtr_eqb_eq.
Qed.

Lemma impl_validate_single_projection_failure
      (g : Graph) path reverse newp what :
  constraintGraph_ self = Some g ->
  pv_validate (pathValidation_ self) path reverse = (false, newp) ->
  projection_failure g path newp what ->
  impl_validate_single self path reverse = Throw (logic_error what).
Proof.
  intros Hg Hpv Hfail.
  unfold impl_validate_single, constraintGraph_getNode.
  rewrite Hpv, Hg. cbn.
  destruct Hfail as [E1 | n1 H1 E2 | n1 n2 H1 H2 E3 | n1 n2 n3 H1 H2 H3 E4];
    repeat match goal with
    | H : node_at _ _ _ = Return _ |- _ =>
        apply node_at_Return in H as (? & ? & ?)
    end;
    repeat match goal with
    | H : eval _ _ = _ |- _ => rewrite H; clear H; cbn
    | H : getNode _ _ = _ |- _ => rewrite H; clear H; cbn
    end; reflexivity.
Qed.

Lemma impl_validate_single_reclassification_failure
      (g : Graph) path reverse newp origNode q what :
  constraintGraph_ self = Some g ->
  pv_validate (pathValidation_ self) path reverse = (false, newp) ->
  node_at g newp (fst (timeRange newp)) = Return origNode ->
  eval newp (snd (timeRange newp)) = Some q ->
  getNode g q = Throw (logic_error what) ->
  impl_validate_single self path reverse = Return (false, degenerate path).
Proof.
  intros Hg Hpv H1 E2 N2. apply node_at_Return in H1 as (q1 & E1 & N1).
  unfold impl_validate_single, constraintGraph_getNode, degenerate.
  rewrite Hpv, Hg. cbn. rewrite E1. cbn. rewrite N1. cbn. rewrite E2, N2.
  reflexivity.
Qed.

(** A forward [PathVector] validation stopping at rank [k]. *)
Lemma impl_validate_forward_stops o d paths k :
  k < List.length paths ->
  (forall j, j < k -> fully_valid self false (pathAtRank paths j) = true) ->
  fully_valid self false (pathAtRank paths k) = false ->
  impl_validate NDEBUG self (PathVector o d paths) false
  = stop_with o d (map copy (firstn k paths))
      (impl_validate NDEBUG self (pathAtRank paths k) false).
Proof.
  intros Hk Hbefore Hk_invalid.
  rewrite impl_validate_PathVector_eq. unfold impl_validate_PathVector.
  rewrite forward_loop_stops with (k := k).
  - rewrite nth_validated by exact Hk.
    rewrite forward_copies_firstn by lia. reflexivity.
  - unfold numberPaths. lia.
  - intros j Hj. exists (pathAtRank paths j).
    rewrite nth_validated by lia.
    apply impl_validate_fully_valid; [now right | apply Hbefore; lia].
  - intros [vp Hvp]. rewrite nth_validated in Hvp by exact Hk.
    apply fully_valid_of_impl_validate in Hvp. destruct Hvp. congruence.
Qed.

(** C3.  The three classes of failure of a validation.  (a) A collision,
    with every projection and classification succeeding: normal return,
    [false], and a part that is the truncated one or the zero-length one.
    (b) A projection failure at an end of the truncated part or of the path:
    a [std::logic_error] reaches the caller, also through an enclosing
    [PathVector]; it is not a [false] return.  (c) A classification of the
    end of the truncated part that throws [std::logic_error]: it is caught,
    and the return is [false] with the zero-length part at the start time
    of the path. *)
Theorem validate_failure_classes
    (a : Leaf) (reverse : bool) (g : Graph) (pathNoCollision : Path) :
  constraintGraph_ self = Some g ->
  pv_validate (pathValidation_ self) (Atom a) reverse
    = (false, pathNoCollision) ->
  (* (a) *)
  (forall origNode destNode oldOnode oldDnode,
     node_at g pathNoCollision (fst (timeRange pathNoCollision))
       = Return origNode ->
     node_at g pathNoCollision (snd (timeRange pathNoCollision))
       = Return destNode ->
     node_at g (Atom a) (fst (timeRange (Atom a))) = Return oldOnode ->
     node_at g (Atom a) (snd (timeRange (Atom a))) = Return oldDnode ->
     exists validPart,
       validate_returns NDEBUG self (Atom a) reverse (false, validPart) /\
       (validPart = pathNoCollision \/ validPart = degenerate (Atom a)))
  /\
  (* (b) *)
  (forall what,
     projection_failure g (Atom a) pathNoCollision what ->
     validate_report NDEBUG self (Atom a) reverse = Throw (logic_error what) /\
     validate_ValidationReport NDEBUG self (Atom a) reverse
       = Throw (logic_error what) /\
     validate NDEBUG self (Atom a) reverse = Throw (logic_error what) /\
     forall o d before after,
       reverse = false ->
       forallb (fully_valid self false) before = true ->
       validate_report NDEBUG self
         (PathVector o d (before ++ Atom a :: after)) false
       = Throw (logic_error what))
  /\
  (* (c) *)
  (forall origNode q what,
     node_at g pathNoCollision (fst (timeRange pathNoCollision))
       = Return origNode ->
     eval pathNoCollision (snd (timeRange pathNoCollision)) = Some q ->
     getNode g q = Throw (logic_error what) ->
     validate_returns NDEBUG self (Atom a) reverse
       (false, degenerate (Atom a))).
Proof.
  intros Hg Hpv. split; [| split].
  - intros oN dN oldO oldD H1 H2 H3 H4.
    pose proof (impl_validate_single_collision _ _ Hg Hpv H1 H2 H3 H4) as Himpl.
    eexists. split; [apply validate_returns_intro; exact Himpl |].
    destruct (_ && _); [left | right]; reflexivity.
  - intros what Hfail.
    pose proof (impl_validate_single_projection_failure _ Hg Hpv Hfail)
      as Himpl.
    repeat split; try exact Himpl.
    + unfold validate. cbn. rewrite Himpl. reflexivity.
    + intros o d before after -> Hbefore.
      unfold validate_report.
      assert (Hrank : pathAtRank (before ++ Atom a :: after)
                        (List.length before) = Atom a).
      { unfold pathAtRank. rewrite nth_middle. reflexivity. }
      rewrite (@impl_validate_forward_stops o d _ (List.length before)).
      * rewrite Hrank. cbn. rewrite Himpl. reflexivity.
      * rewrite length_app. cbn. lia.
      * intros j Hj. unfold pathAtRank. rewrite app_nth1 by exact Hj.
        rewrite forallb_forall in Hbefore. apply Hbefore.
        apply nth_In. exact Hj.
      * rewrite Hrank. cbn. rewrite Hpv. reflexivity.
  - intros oN q what H1 E2 N2. apply validate_returns_intro. cbn.
    exact (impl_validate_single_reclassification_failure _ _ Hg Hpv H1 E2 N2).
Qed.

(** C4.  Forward validation of a [PathVector].  If the elements of ranks
    [0..k-1] are fully valid and validating the element of rank [k] gives
    [false] with the part [validSubPart], the result is [false] with a
    [PathVector] made of copies of the elements of ranks [0..k-1], in order,
    followed by [validSubPart].  If every element is fully valid the result
    is [true] with the input path. *)
Theorem validate_forward_path_vector (o d : nat) (paths : list Path) :
  (forall k validSubPart,
     k < List.length paths ->
     (forall j, j < k -> fully_valid self false (pathAtRank paths j) = true) ->
     validate_report NDEBUG self (pathAtRank paths k) false
       = Return (false, validSubPart) ->
     validate_returns NDEBUG self (PathVector o d paths) false
       (false, PathVector o d (map copy (firstn k paths) ++ [validSubPart])))
  /\
  (forallb (fully_valid self false) paths = true ->
     validate_returns NDEBUG self (PathVector o d paths) false
       (true, PathVector o d paths)).
Proof.
  split.
  - intros k vsp Hk Hbefore Hstop. apply validate_returns_intro.
    unfold validate_report in Hstop.
    rewrite impl_validate_forward_stops with (k := k); try assumption.
    + rewrite Hstop. reflexivity.
    + destruct (fully_valid self false (pathAtRank paths k)) eqn:E;
        [| reflexivity].
      rewrite impl_validate_fully_valid in Hstop by (auto || exact E).
      discriminate.
  - intros Hall. apply validate_returns_intro.
    apply impl_validate_fully_valid; [now right | exact Hall].
Qed.

(** What the three assertions of lines 39-41 make of a result [r] of
    [impl_validate]. *)
Lemma validate_returns_iff_postconditions path reverse r :
  impl_validate NDEBUG self path reverse = Return r ->
  validate NDEBUG self path reverse = Return r
  <-> postconditions_hold NDEBUG self (snd r).
Proof.
  intros Himpl. split; [| now apply validate_of_impl_validate].
  destruct r as [success validPart]. unfold validate. rewrite Himpl. cbn.
  assert (HN : NDEBUG = true \/ NDEBUG = false) by (destruct NDEBUG; auto).
  destruct HN as [HN | HN]; [intros _; now left |].
  rewrite !assert_checks by exact HN.
  unfold constraintGraph_getNode.
  destruct (constraintGraph_ self) as [g |] eqn:Hg; cbn; [| discriminate].
  destruct (getNode g (initial validPart)) as [[n1 |] | | |] eqn:H1; cbn;
    try discriminate.
  destruct (getNode g (end_ validPart)) as [[n2 |] | | |] eqn:H2; cbn;
    try discriminate.
  intros _. right. exists g, n1, n2. repeat split; assumption.
Qed.

Lemma validate_checks_graph path reverse success validPart :
  NDEBUG = false ->
  impl_validate NDEBUG self path reverse = Return (success, validPart) ->
  (constraintGraph_ self = None ->
   validate NDEBUG self path reverse = AssertionFailed "constraintGraph_")
  /\
  (forall g, constraintGraph_ self = Some g ->
     (getNode g (initial validPart) = Return None ->
      validate NDEBUG self path reverse
      = AssertionFailed "constraintGraph_->getNode (validPart->initial ())")
     /\
     (forall e, getNode g (initial validPart) = Throw e ->
      validate NDEBUG self path reverse = Throw e)
     /\
     (forall n, getNode g (initial validPart) = Return (Some n) ->
      getNode g (end_ validPart) = Return None ->
      validate NDEBUG self path reverse
      = AssertionFailed "constraintGraph_->getNode (validPart->end     ())")
     /\
     (forall n e, getNode g (initial validPart) = Return (Some n) ->
      getNode g (end_ validPart) = Throw e ->
      validate NDEBUG self path reverse = Throw e)).
Proof.
  intros HN Himpl. unfold validate. rewrite Himpl. cbn.
  rewrite !assert_checks by exact HN. unfold constraintGraph_getNode.
  split; [intros ->; reflexivity |].
  intros g ->. cbn.
  split; [| split; [| split]].
  - intros ->. reflexivity.
  - intros e ->. reflexivity.
  - intros n -> ->. reflexivity.
  - intros n e -> ->. reflexivity.
Qed.

(** C6, as the code has it.  A path that is fully valid, validated forward,
    or not composite, or in a build without assertions: the overloads that
    take a report return [true] and the path itself.  The three-argument
    overload returns nothing else, and returns it exactly when what lines
    39-41 assert of the path holds: assertions are disabled, or a graph is
    attached and both ends of the path classify to a node.  With assertions
    it aborts without a graph, aborts when an end of the path has no node,
    and lets through what [getNode] throws for an end of the path. *)
Theorem validate_fully_valid_path (path : Path) (reverse : bool) :
  reverse_guard_passes NDEBUG path reverse ->
  fully_valid self reverse path = true ->
  validate_report NDEBUG self path reverse = Return (true, path) /\
  validate_ValidationReport NDEBUG self path reverse = Return (true, path) /\
  (validate NDEBUG self path reverse = Return (true, path)
   <-> postconditions_hold NDEBUG self path) /\
  (forall r, validate NDEBUG self path reverse = Return r -> r = (true, path))
  /\
  (NDEBUG = false ->
   (constraintGraph_ self = None ->
    validate NDEBUG self path reverse = AssertionFailed "constraintGraph_")
   /\
   (forall g, constraintGraph_ self = Some g ->
      (getNode g (initial path) = Return None ->
       validate NDEBUG self path reverse
       = AssertionFailed "constraintGraph_->getNode (validPart->initial ())")
      /\
      (forall e, getNode g (initial path) = Throw e ->
       validate NDEBUG self path reverse = Throw e)
      /\
      (forall n, getNode g (initial path) = Return (Some n) ->
       getNode g (end_ path) = Return None ->
       validate NDEBUG self path reverse
       = AssertionFailed "constraintGraph_->getNode (validPart->end     ())")
      /\
      (forall n e, getNode g (initial path) = Return (Some n) ->
       getNode g (end_ path) = Throw e ->
       validate NDEBUG self path reverse = Throw e))).
Proof.
  intros Hguard Hvalid.
  assert (Himpl : impl_validate NDEBUG self path reverse
                  = Return (true, path)).
  { destruct Hguard as [HN | [Hr | [a ->]]].
    - apply impl_validate_fully_valid; [now left | exact Hvalid].
    - apply impl_validate_fully_valid; [now right | exact Hvalid].
    - cbn. apply impl_validate_single_valid. exact Hvalid. }
  split; [exact Himpl |]. split; [exact Himpl |].
  split; [| split].
  - exact (validate_returns_iff_postconditions _ _ Himpl).
  - intros r Hr. apply impl_validate_of_validate in Hr. congruence.
  - intros HN. eapply validate_checks_graph; eassumption.
Qed.

(** Every way for a non-composite path to come back from [impl_validate],
    with what the wrapped validator said. *)
Lemma impl_validate_single_Return_validator
      (g : Graph) path reverse success validPart :
  constraintGraph_ self = Some g ->
  impl_validate_single self path reverse = Return (success, validPart) ->
  (success = true /\ validPart = path /\
   fst (pv_validate (pathValidation_ self) path reverse) = true)
  \/ (success = false /\
      pv_validate (pathValidation_ self) path reverse = (false, validPart) /\
      same_state_pair g validPart path)
  \/ (success = false /\ validPart = degenerate path /\
      fst (pv_validate (pathValidation_ self) path reverse) = false).
Proof.
  intros Hg. unfold impl_validate_single, constraintGraph_getNode, degenerate.
  rewrite Hg. cbn.
  destruct (pv_validate (pathValidation_ self) path reverse) as [[|] newp].
  { intros [= <- <-]. left. split; [| split]; reflexivity. }
  destruct (eval newp (fst (timeRange newp))) as [q1 |] eqn:E1;
    [| discriminate].
  destruct (getNode g q1) as [origNode | | |] eqn:N1; cbn; try discriminate.
  destruct (eval newp (snd (timeRange newp))) as [q2 |] eqn:E2;
    [| discriminate].
  destruct (getNode g q2) as [destNode | [what | what] | |] eqn:N2; cbn;
    try discriminate.
  2: { intros [= <- <-]. right. right. split; [| split]; reflexivity. }
  destruct (eval path (fst (timeRange path))) as [q3 |] eqn:E3;
    [| discriminate].
  destruct (getNode g q3) as [oldOnode | | |] eqn:N3; cbn; try discriminate.
  destruct (eval path (snd (timeRange path))) as [q4 |] eqn:E4;
    [| discriminate].
  destruct (getNode g q4) as [oldDnode | | |] eqn:N4; cbn; try discriminate.
  destruct (NodePtr_eqb origNode oldOnode) eqn:Ho;
    destruct (NodePtr_eqb destNode oldDnode) eqn:Hd; cbn;
    intros [= <- <-];
    try (right; right; split; [| split]; reflexivity).
  right. left. split; [reflexivity |]. split; [reflexivity |].
  apply NodePtr_eqb_eq in Ho, Hd. subst oldOnode oldDnode.
  exists origNode, destNode. unfold node_at.
  rewrite E1, E2, E3, E4. repeat split; assumption.
Qed.

Lemma impl_validate_graph_consistent
      (g : Graph) path reverse success validPart :
  constraintGraph_ self = Some g ->
  reverse = false \/ (exists a, path = Atom a) ->
  impl_validate NDEBUG self path reverse = Return (success, validPart) ->
  graph_consistent self g reverse success validPart path.
Proof.
  intros Hg. revert success validPart.
  induction path as [a | o d paths IH] using Path_ind;
    intros success validPart Hdir Hret.
  - cbn in Hret.
    destruct (impl_validate_single_Return_validator _ _ Hg Hret)
      as [(-> & -> & Hpv) | [(-> & Hpv & Hsame) | (-> & -> & Hpv)]].
    + apply consistent_whole. exact Hpv.
    + apply consistent_same_state_pair; assumption.
    + apply consistent_degenerate. exact Hpv.
  - destruct Hdir as [-> | [a Ha]]; [| discriminate].
    rewrite impl_validate_PathVector_eq in Hret.
    unfold impl_validate_PathVector in Hret.
    set (validated :=
           fun r => map (fun sub => impl_validate NDEBUG self sub r) paths)
    in *.
    destruct (forward_loop_cases (PathVector o d paths) o d paths validated)
      as [[Hall Heq] | (k & Hk & Hstop & Hbefore & Heq)]; rewrite Heq in Hret.
    + injection Hret as <- <-. apply consistent_whole.
      cbn. rewrite forallb_forall. intros sub Hin.
      destruct (In_nth _ _ (PathVector 0 0 []) Hin) as (j & Hj & <-).
      destruct (Hall j Hj) as [vp Hvp].
      unfold validated in Hvp. rewrite nth_validated in Hvp by exact Hj.
      now apply fully_valid_of_impl_validate in Hvp.
    + unfold validated in Hret, Hstop, Hbefore.
      unfold numberPaths in Hk.
      rewrite nth_validated in Hret by exact Hk.
      rewrite forward_copies_firstn in Hret by lia.
      unfold stop_with in Hret.
      destruct (impl_validate NDEBUG self (pathAtRank paths k) false)
        as [[v vsp] | | |] eqn:Ek; cbn in Hret; try discriminate.
      injection Hret as <- <-.
      assert (Hv : v = false).
      { destruct v; [| reflexivity]. exfalso. apply Hstop. exists vsp.
        now rewrite nth_validated by exact Hk. }
      subst v.
      apply consistent_element; [reflexivity | exact Hk | | |].
      * intros j Hj. destruct (Hbefore j Hj) as [vp Hvp].
        rewrite nth_validated in Hvp by lia.
        now apply fully_valid_of_impl_validate in Hvp.
      * destruct (fully_valid self false (pathAtRank paths k)) eqn:Hvalid;
          [| reflexivity].
        rewrite impl_validate_fully_valid in Ek by auto. discriminate.
      * rewrite Forall_forall in IH.
        apply (IH _ (nth_In _ _ Hk) false vsp); [now left | exact Ek].
Qed.

(** C2, as the code has it.  Whenever [validate] returns, the result is
    [graph_consistent] with the path.  With [true] the part is the path,
    which is fully valid.  With [false], for a non-composite path the
    wrapped validator rejected the path and the part is the truncated part,
    with its ends in the same nodes as the path, or the zero-length part at
    its start time; for a [PathVector] validated forward the part is made
    of copies of the leading fully valid elements followed by a part that is
    so related to the first element that is not fully valid, not to the
    whole path. *)
Theorem validate_graph_consistent
    (g : Graph) (path : Path) (reverse success : bool) (validPart : Path) :
  constraintGraph_ self = Some g ->
  reverse = false \/ (exists a, path = Atom a) ->
  validate NDEBUG self path reverse = Return (success, validPart) \/
  validate_report NDEBUG self path reverse = Return (success, validPart) \/
  validate_ValidationReport NDEBUG self path reverse
    = Return (success, validPart) ->
  graph_consistent self g reverse success validPart path /\
  ((exists a, path = Atom a) ->
     validPart = path \/ same_state_pair g validPart path \/
     validPart = degenerate path).
Proof.
  intros Hg Hdir Hret.
  assert (Himpl : impl_validate NDEBUG self path reverse
                  = Return (success, validPart)).
  { destruct Hret as [H | [H | H]]; [| exact H | exact H].
    now apply impl_validate_of_validate. }
  split.
  - eapply impl_validate_graph_consistent; eassumption.
  - intros [a ->]. cbn in Himpl.
    destruct (impl_validate_single_Return _ _ Hg Himpl)
      as [[_ ->] | [[_ Hsame] | [_ ->]]]; auto.
Qed.

(** *** Reverse validation of a [PathVector] *)

(** With assertions the reverse branch stops on its first statement. *)
Lemma impl_validate_reverse_asserts o d paths :
  NDEBUG = false ->
  impl_validate NDEBUG self (PathVector o d paths) true
  = AssertionFailed
      "!reverse && This has never been tested with reverse path".
Proof.
  intros HN. rewrite impl_validate_PathVector_eq.
  unfold impl_validate_PathVector. rewrite assert_checks by exact HN.
  reflexivity.
Qed.

(** Without them, stopping at rank [i] puts [numberPaths - 1 - i] copies of
    the element of rank [i] (line 75 reads [pathAtRank(i)]) in front of the
    part obtained from that same element. *)
Lemma impl_validate_reverse_stops o d paths i :
  NDEBUG = true ->
  i < List.length paths ->
  (forall j, i < j < List.length paths ->
     fully_valid self true (pathAtRank paths j) = true) ->
  fully_valid self true (pathAtRank paths i) = false ->
  impl_validate NDEBUG self (PathVector o d paths) true
  = stop_with o d
      (repeat (copy (pathAtRank paths i)) (List.length paths - 1 - i))
      (impl_validate NDEBUG self (pathAtRank paths i) true).
Proof.
  intros HN Hi Hafter Hinvalid.
  rewrite impl_validate_PathVector_eq.
  unfold impl_validate_PathVector. rewrite assert_NDEBUG by exact HN. cbn.
  rewrite reverse_loop_stops with (i := i).
  - rewrite nth_validated by exact Hi.
    rewrite reverse_copies_repeat. reflexivity.
  - exact Hi.
  - intros j Hj. exists (pathAtRank paths j).
    rewrite nth_validated by (unfold numberPaths in Hj; lia).
    apply impl_validate_fully_valid; [now left | now apply Hafter].
  - intros [vp Hvp]. rewrite nth_validated in Hvp by exact Hi.
    apply fully_valid_of_impl_validate in Hvp. destruct Hvp. congruence.
Qed.

(** *** A validator without a constraint graph *)
Lemma impl_validate_without_graph path reverse success validPart :
  constraintGraph_ self = None ->
  impl_validate NDEBUG self path reverse = Return (success, validPart) ->
  success = true.
Proof.
  intros Hnone. revert success validPart.
  induction path as [a | o d paths IH] using Path_ind;
    intros success validPart Hret.
  - cbn in Hret. unfold impl_validate_single, constraintGraph_getNode in Hret.
    rewrite Hnone in Hret. cbn in Hret.
    destruct (pv_validate (pathValidation_ self) (Atom a) reverse)
      as [[|] newp].
    + congruence.
    + destruct (eval newp (fst (timeRange newp))); discriminate.
  - rewrite impl_validate_PathVector_eq in Hret.
    unfold impl_validate_PathVector in Hret.
    set (validated :=
           fun r => map (fun sub => impl_validate NDEBUG self sub r) paths)
    in *.
    assert (Hstopped : forall k copies,
              k < List.length paths ->
              ~ passes validated reverse k ->
              stop_with o d copies (nth k (validated reverse) Undefined)
              <> Return (success, validPart)).
    { intros k copies Hk Hstop Heq. unfold stop_with in Heq.
      destruct (nth k (validated reverse) Undefined)
        as [[v vsp] | | |] eqn:Ek; cbn in Heq; try discriminate.
      apply Hstop. exists vsp. rewrite Ek. do 2 f_equal.
      unfold validated in Ek. rewrite nth_validated in Ek by exact Hk.
      rewrite Forall_forall in IH.
      exact (IH _ (nth_In _ _ Hk) _ _ Ek). }
    destruct reverse.
    + destruct (assert_ NDEBUG (Return (negb true)) _); cbn in Hret;
        try discriminate.
      destruct (reverse_loop_cases (PathVector o d paths) o d paths validated)
        as [[_ Heq] | (k & Hk & Hstop & _ & Heq)]; rewrite Heq in Hret.
      * congruence.
      * now apply Hstopped in Hret.
    + destruct (forward_loop_cases (PathVector o d paths) o d paths validated)
        as [[_ Heq] | (k & Hk & Hstop & _ & Heq)]; rewrite Heq in Hret.
      * congruence.
      * now apply Hstopped in Hret.
Qed.

Lemma validate_without_graph_asserts path reverse r :
  NDEBUG = false ->
  constraintGraph_ self = None ->
  impl_validate NDEBUG self path reverse = Return r ->
  validate NDEBUG self path reverse = AssertionFailed "constraintGraph_".
Proof.
  intros HN Hnone Himpl. unfold validate. rewrite Himpl. destruct r. cbn.
  rewrite assert_checks by exact HN. rewrite Hnone. reflexivity.
Qed.

Lemma validate_without_graph_never_returns path reverse :
  NDEBUG = false ->
  constraintGraph_ self = None ->
  returned (validate NDEBUG self path reverse) = false.
Proof.
  intros HN Hnone.
  destruct (validate NDEBUG self path reverse) as [r | | |] eqn:E;
    try reflexivity.
  pose proof (impl_validate_of_validate _ _ E) as Himpl.
  rewrite (validate_without_graph_asserts _ _ HN Hnone Himpl) in E.
  discriminate.
Qed.

(** Lines 40-41: a null node for an end of the returned part aborts. *)
Lemma validate_asserts_nodes (g : Graph) path reverse success validPart :
  NDEBUG = false ->
  constraintGraph_ self = Some g ->
  impl_validate NDEBUG self path reverse = Return (success, validPart) ->
  (getNode g (initial validPart) = Return None ->
   validate NDEBUG self path reverse
   = AssertionFailed "constraintGraph_->getNode (validPart->initial ())")
  /\
  (forall n, getNode g (initial validPart) = Return (Some n) ->
   getNode g (end_ validPart) = Return None ->
   validate NDEBUG self path reverse
   = AssertionFailed "constraintGraph_->getNode (validPart->end     ())").
Proof.
  intros HN Hg Himpl. unfold validate, constraintGraph_getNode.
  rewrite Himpl. cbn. rewrite !assert_checks by exact HN. rewrite Hg. cbn.
  split.
  - intros ->. reflexivity.
  - intros n -> ->. reflexivity.
Qed.
(** *** More on [validate]: success, short cuts, shapes, failures *)

Lemma pathAtRank_middle (before after : list Path) (e : Path) :
  pathAtRank (before ++ e :: after) (List.length before) = e.
Proof. unfold pathAtRank. now rewrite nth_middle. Qed.

Lemma pathAtRank_before (before rest : list Path) (j : nat) :
  j < List.length before ->
  In (pathAtRank (before ++ rest) j) before.
Proof.
  intros Hj. unfold pathAtRank. rewrite app_nth1 by exact Hj.
  now apply nth_In.
Qed.

Lemma pathAtRank_after (before after : list Path) (e : Path) (j : nat) :
  List.length before < j < List.length (before ++ e :: after) ->
  In (pathAtRank (before ++ e :: after) j) after.
Proof.
  intros Hj. rewrite length_app in Hj. cbn in Hj. unfold pathAtRank.
  rewrite app_nth2 by lia.
  destruct (j - List.length before) as [| m] eqn:Hm; [lia |].
  cbn. apply nth_In. lia.
Qed.

Lemma firstn_middle (before after : list Path) (e : Path) :
  firstn (List.length before) (before ++ e :: after) = before.
Proof.
  rewrite firstn_app, Nat.sub_diag, firstn_all. cbn. apply app_nil_r.
Qed.

Lemma impl_validate_stops_in_the_middle o d before e after :
  forallb (fully_valid self false) before = true ->
  fully_valid self false e = false ->
  impl_validate NDEBUG self (PathVector o d (before ++ e :: after)) false
  = stop_with o d (map copy before) (impl_validate NDEBUG self e false).
Proof.
  intros Hbefore He.
  rewrite impl_validate_forward_stops with (k := List.length before).
  - now rewrite pathAtRank_middle, firstn_middle.
  - rewrite length_app. cbn. lia.
  - intros j Hj. rewrite forallb_forall in Hbefore. apply Hbefore.
    now apply pathAtRank_before.
  - now rewrite pathAtRank_middle.
Qed.

Lemma fully_valid_false_of_not_returned path reverse :
  (forall validPart,
     impl_validate NDEBUG self path reverse <> Return (true, validPart)) ->
  (reverse = false \/ NDEBUG = true \/ exists a, path = Atom a) ->
  fully_valid self reverse path = false.
Proof.
  intros Hnot Hguard.
  destruct (fully_valid self reverse path) eqn:Hvalid; [| reflexivity].
  exfalso. apply (Hnot path).
  destruct Hguard as [Hr | [HN | [a ->]]].
  - apply impl_validate_fully_valid; auto.
  - apply impl_validate_fully_valid; auto.
  - cbn. now apply impl_validate_single_valid.
Qed.

(** X1.  When [validate] returns, its result is [true] exactly when the
    wrapped validator accepts every non-composite path [path] is made of, and
    with [true] the part returned is [path] itself. *)
Theorem validate_success_iff_fully_valid
    (path : Path) (reverse success : bool) (validPart : Path) :
  validate NDEBUG self path reverse = Return (success, validPart) \/
  validate_report NDEBUG self path reverse = Return (success, validPart) \/
  validate_ValidationReport NDEBUG self path reverse
    = Return (success, validPart) ->
  success = fully_valid self reverse path /\
  (success = true -> validPart = path).
Proof.
  intros Hret.
  assert (Himpl : impl_validate NDEBUG self path reverse
                  = Return (success, validPart)).
  { destruct Hret as [H | [H | H]]; [| exact H | exact H].
    now apply impl_validate_of_validate. }
  destruct success.
  - apply fully_valid_of_impl_validate in Himpl as [Hvalid ->]. auto.
  - split; [| discriminate].
    destruct (fully_valid self reverse path) eqn:Hvalid; [| reflexivity].
    exfalso.
    destruct path as [a | o d paths].
    + cbn in Himpl. rewrite impl_validate_single_valid in Himpl by exact Hvalid.
      discriminate.
    + assert (HN : NDEBUG = true \/ NDEBUG = false)
        by (destruct NDEBUG; auto).
      destruct reverse; [destruct HN as [HN | HN] |].
      * rewrite impl_validate_fully_valid in Himpl by auto. discriminate.
      * rewrite impl_validate_reverse_asserts in Himpl by exact HN.
        discriminate.
      * rewrite impl_validate_fully_valid in Himpl by auto. discriminate.
Qed.

(** X2.  Validation of a [PathVector] stops at the first element that is
    not fully valid: forward, the elements after it have no part in the
    outcome; in reverse (in a build without assertions), those before it
    have none. *)
Theorem validate_stops_at_first_invalid_element (o d : nat) (e : Path) :
  (forall before after after',
     forallb (fully_valid self false) before = true ->
     fully_valid self false e = false ->
     validate_report NDEBUG self (PathVector o d (before ++ e :: after)) false
     = validate_report NDEBUG self
         (PathVector o d (before ++ e :: after')) false)
  /\
  (forall before before' after,
     NDEBUG = true ->
     forallb (fully_valid self true) after = true ->
     fully_valid self true e = false ->
     validate_report NDEBUG self (PathVector o d (before ++ e :: after)) true
     = validate_report NDEBUG self
         (PathVector o d (before' ++ e :: after)) true).
Proof.
  split.
  - intros before after after' Hbefore He. unfold validate_report.
    now rewrite !impl_validate_stops_in_the_middle.
  - intros before before' after HN Hafter He. unfold validate_report.
    assert (Hstop : forall front,
              impl_validate NDEBUG self
                (PathVector o d (front ++ e :: after)) true
              = stop_with o d (repeat (copy e) (List.length after))
                  (impl_validate NDEBUG self e true)).
    { intros front.
      rewrite impl_validate_reverse_stops with (i := List.length front).
      - rewrite pathAtRank_middle. do 2 f_equal.
        rewrite length_app. cbn. lia.
      - exact HN.
      - rewrite length_app. cbn. lia.
      - intros j Hj. rewrite forallb_forall in Hafter. apply Hafter.
        now apply pathAtRank_after.
      - now rewrite pathAtRank_middle. }
    now rewrite !Hstop.
Qed.

(** X3.  A forward validation of a [PathVector] that returns [false] returns
    a [PathVector] of the same two sizes, made of copies of the [k] leading
    elements, all fully valid, followed by the part that validating the
    element of rank [k], which is not fully valid, returned with [false]: it
    has [k + 1] elements, at least one and no more than the input. *)
Theorem validate_false_path_vector_shape
    (o d : nat) (paths : list Path) (validPart : Path) :
  validate_report NDEBUG self (PathVector o d paths) false
    = Return (false, validPart) ->
  exists k part,
    k < numberPaths paths /\
    (forall j, j < k -> fully_valid self false (pathAtRank paths j) = true) /\
    fully_valid self false (pathAtRank paths k) = false /\
    validate_report NDEBUG self (pathAtRank paths k) false
      = Return (false, part) /\
    validPart = PathVector o d (map copy (firstn k paths) ++ [part]) /\
    List.length (map copy (firstn k paths) ++ [part]) = S k.
Proof.
  unfold validate_report. intros Hret.
  rewrite impl_validate_PathVector_eq in Hret.
  unfold impl_validate_PathVector in Hret.
  set (validated :=
         fun r => map (fun sub => impl_validate NDEBUG self sub r) paths)
    in *.
  destruct (forward_loop_cases (PathVector o d paths) o d paths validated)
    as [[_ Heq] | (k & Hk & Hstop & Hbefore & Heq)]; rewrite Heq in Hret;
    [discriminate |].
  unfold validated in Hret, Hstop, Hbefore. unfold numberPaths in Hk.
  rewrite nth_validated in Hret by exact Hk.
  rewrite forward_copies_firstn in Hret by lia.
  unfold stop_with in Hret.
  destruct (impl_validate NDEBUG self (pathAtRank paths k) false)
    as [[v part] | | |] eqn:Ek; cbn in Hret; try discriminate.
  injection Hret as <-.
  assert (Hv : v = false).
  { destruct v; [| reflexivity]. exfalso. apply Hstop. exists part.
    now rewrite nth_validated by exact Hk. }
  subst v. exists k, part.
  split; [exact Hk |]. split; [| split; [| split; [| split]]].
  - intros j Hj. destruct (Hbefore j Hj) as [vp Hvp].
    rewrite nth_validated in Hvp by lia.
    now apply fully_valid_of_impl_validate in Hvp.
  - destruct (fully_valid self false (pathAtRank paths k)) eqn:Hvalid;
      [| reflexivity].
    rewrite impl_validate_fully_valid in Ek by auto. discriminate.
  - exact Ek.
  - reflexivity.
  - rewrite length_app, length_map, length_firstn. cbn. lia.
Qed.

(** X4.  Of the four classifications of lines 121-157 only the one of the
    end of the truncated part is inside the [try] block.  Whatever [getNode]
    throws for the start of the truncated part or for either end of the path
    reaches the caller, a [std::logic_error] included; for the end of the
    truncated part, what is not a [std::logic_error] does. *)
Theorem validate_classification_errors_propagate
    (a : Leaf) (reverse : bool) (g : Graph) (pathNoCollision : Path) :
  constraintGraph_ self = Some g ->
  pv_validate (pathValidation_ self) (Atom a) reverse
    = (false, pathNoCollision) ->
  (forall q e,
     eval pathNoCollision (fst (timeRange pathNoCollision)) = Some q ->
     getNode g q = Throw e ->
     validate_report NDEBUG self (Atom a) reverse = Throw e)
  /\
  (forall origNode q what,
     node_at g pathNoCollision (fst (timeRange pathNoCollision))
       = Return origNode ->
     eval pathNoCollision (snd (timeRange pathNoCollision)) = Some q ->
     getNode g q = Throw (other_exception what) ->
     validate_report NDEBUG self (Atom a) reverse
     = Throw (other_exception what))
  /\
  (forall origNode destNode q e,
     node_at g pathNoCollision (fst (timeRange pathNoCollision))
       = Return origNode ->
     node_at g pathNoCollision (snd (timeRange pathNoCollision))
       = Return destNode ->
     eval (Atom a) (fst (timeRange (Atom a))) = Some q ->
     getNode g q = Throw e ->
     validate_report NDEBUG self (Atom a) reverse = Throw e)
  /\
  (forall origNode destNode oldOnode q e,
     node_at g pathNoCollision (fst (timeRange pathNoCollision))
       = Return origNode ->
     node_at g pathNoCollision (snd (timeRange pathNoCollision))
       = Return destNode ->
     node_at g (Atom a) (fst (timeRange (Atom a))) = Return oldOnode ->
     eval (Atom a) (snd (timeRange (Atom a))) = Some q ->
     getNode g q = Throw e ->
     validate_report NDEBUG self (Atom a) reverse = Throw e).
Proof.
  intros Hg Hpv.
  unfold validate_report. cbn.
  unfold impl_validate_single, constraintGraph_getNode.
  rewrite Hpv, Hg. cbn.
  repeat split; intros;
    repeat match goal with
    | H : node_at _ _ _ = Return _ |- _ =>
        apply node_at_Return in H as (? & ? & ?)
    end;
    repeat match goal with
    | H : eval _ _ = _ |- _ => rewrite H; clear H; cbn
    | H : getNode _ _ = _ |- _ => rewrite H; clear H; cbn
    end; reflexivity.
Qed.

(** X6.  Forward validation of a [PathVector] has no handler of its own:
    when the validation of the first element that is not fully valid does
    not return (it throws, or aborts), the validation of the whole ends the
    same way. *)
Theorem validate_forward_failure_propagates
    (o d : nat) (before after : list Path) (e : Path) :
  forallb (fully_valid self false) before = true ->
  returned (validate_report NDEBUG self e false) = false ->
  validate_report NDEBUG self (PathVector o d (before ++ e :: after)) false
  = validate_report NDEBUG self e false.
Proof.
  unfold validate_report. intros Hbefore Hnot.
  rewrite impl_validate_stops_in_the_middle; [| exact Hbefore |].
  - destruct (impl_validate NDEBUG self e false) as [r | | |];
      [discriminate | reflexivity ..].
  - apply fully_valid_false_of_not_returned; [| now left].
    intros vp Heq. rewrite Heq in Hnot. discriminate.
Qed.

(** X13.  Forward validation succeeds on a concatenation exactly when it
    succeeds on both halves. *)
Theorem validate_concatenation (o d : nat) (front rear : list Path) :
  validate_report NDEBUG self (PathVector o d (front ++ rear)) false
    = Return (true, PathVector o d (front ++ rear))
  <->
  validate_report NDEBUG self (PathVector o d front) false
    = Return (true, PathVector o d front) /\
  validate_report NDEBUG self (PathVector o d rear) false
    = Return (true, PathVector o d rear).
Proof.
  unfold validate_report. split.
  - intros H. apply fully_valid_of_impl_validate in H as [Hvalid _].
    cbn in Hvalid. rewrite forallb_app in Hvalid.
    apply andb_true_iff in Hvalid as [Hfront Hrear].
    split; apply impl_validate_fully_valid; auto.
  - intros [Hfront Hrear].
    apply fully_valid_of_impl_validate in Hfront as [Hfront _].
    apply fully_valid_of_impl_validate in Hrear as [Hrear _].
    apply impl_validate_fully_valid; [now right |].
    cbn in *. rewrite forallb_app. now rewrite Hfront, Hrear.
Qed.

End Properties.

(** C10, as the code has it.  [create] leaves the graph pointer null.  In a
    build with assertions, the three-argument [validate] on such a validator
    never returns: whenever [impl_validate] comes back it aborts on [assert
    (constraintGraph_)], which is the case of every fully valid path
    validated forward; a non-composite path that the wrapped validator
    rejects does not get that far: line 121 dereferences the null pointer,
    unless the start of the truncated part does not project, and then the
    [std::logic_error] of line 120 is thrown.  With a graph attached, a null
    node for the initial or the end configuration of the returned part
    aborts on the assertions of lines 40 and 41.  The overloads that take a
    report assert nothing of the graph: without one they still return a
    fully valid path. *)
Theorem validate_requires_constraint_graph
    {Configuration value_type Leaf Node : Type}
    {Node_eqdec : EqDec Node}
    {ops : PathOps (Configuration := Configuration)
                   (value_type := value_type) (Leaf := Leaf)}
    (pathValidation : PathValidation (Leaf := Leaf))
    (path : Path) (reverse : bool) :
  let self : t (Configuration := Configuration) (Node := Node) :=
    create pathValidation in
  constraintGraph_ self = None
  /\ returned (validate false self path reverse) = false
  /\ (forall r, impl_validate false self path reverse = Return r ->
        validate false self path reverse = AssertionFailed "constraintGraph_")
  /\ (fully_valid self false path = true ->
        validate false self path false = AssertionFailed "constraintGraph_")
  /\ (forall a pathNoCollision,
        path = Atom a ->
        pv_validate pathValidation path reverse = (false, pathNoCollision) ->
        validate false self path reverse
        = match eval pathNoCollision (fst (timeRange pathNoCollision)) with
          | None => Throw (logic_error
              "Initial configuration of the valid part cannot be projected.")
          | Some _ => Undefined
          end)
  /\ (forall g success validPart,
        let attached :=
          {| pathValidation_ := pathValidation; constraintGraph_ := Some g |} in
        impl_validate false attached path reverse
          = Return (success, validPart) ->
        (getNode g (initial validPart) = Return None ->
         validate false attached path reverse
         = AssertionFailed "constraintGraph_->getNode (validPart->initial ())")
        /\
        (forall n, getNode g (initial validPart) = Return (Some n) ->
         getNode g (end_ validPart) = Return None ->
         validate false attached path reverse
         = AssertionFailed
             "constraintGraph_->getNode (validPart->end     ())"))
  /\ (fully_valid self false path = true ->
        validate_report false self path false = Return (true, path) /\
        validate_ValidationReport false self path false
          = Return (true, path)).
Proof.
  intros self. split; [reflexivity |].
  split; [| split; [| split; [| split; [| split]]]].
  6: { intros Hvalid. split; apply impl_validate_fully_valid; auto. }
  - now apply validate_without_graph_never_returns.
  - intros r Himpl. eapply validate_without_graph_asserts; eauto.
  - intros Hvalid. eapply validate_without_graph_asserts; eauto.
    apply impl_validate_fully_valid; auto.
  - intros a newp -> Hpv. unfold validate. cbn.
    unfold impl_validate_single, constraintGraph_getNode. cbn.
    cbn in Hpv. rewrite Hpv.
    destruct (eval newp (fst (timeRange newp))); reflexivity.
  - intros g success validPart attached Himpl.
    eapply validate_asserts_nodes; eauto.
Qed.

End GraphPathValidationProperties.

(** ** Runs of the validation *)

Module LineRuns.
Import GraphPathValidation GraphPathValidationProperties Line.

Example truncated_in_same_nodes :
  validate_report false (validator 8) (segment 0 9) false
  = Return (false, segment 0 7).
Proof. reflexivity. Qed.

Example truncated_in_other_node :
  validate_report false (validator 8) (segment 0 12) false
  = Return (false, segment 0 0).
Proof. reflexivity. Qed.

Example truncated_end_without_node :
  validate_report false (validator 26) (segment 0 40) false
  = Return (false, segment 0 0).
Proof. reflexivity. Qed.

Example composite_stops_at_rank_1 :
  validate_report false (validator 15)
    (PathVector 1 1 [segment 0 5; segment 5 19; segment 19 40]) false
  = Return (false, PathVector 1 1 [segment 0 5; segment 5 14]).
Proof. reflexivity. Qed.

(** C1 at two paths cut before an obstacle at 8: [[0, 9]] is cut to
    [[0, 7]], which still ends in node 0 as the path does; [[0, 12]] ends in
    node 1 and its cut does not. *)
Lemma validate_truncated_part_witness :
  validate_returns false (validator 8) (segment 0 9) false
    (false, segment 0 7)
  /\ validate_returns false (validator 8) (segment 0 12) false
    (false, segment 0 0).
Proof.
  split.
  - refine (proj1 (validate_truncated_part false (validator 8)
              {| lo := 0; hi := 9; unprojectable := [] |} false
              (g := line_graph) (pathNoCollision := segment 0 7)
              (origNode := Some 0) (destNode := Some 0)
              (oldOnode := Some 0) (oldDnode := Some 0)
              _ _ _ _ _ _) _); try reflexivity.
    split; reflexivity.
  - refine (proj2 (validate_truncated_part false (validator 8)
              {| lo := 0; hi := 12; unprojectable := [] |} false
              (g := line_graph) (pathNoCollision := segment 0 7)
              (origNode := Some 0) (destNode := Some 0)
              (oldOnode := Some 0) (oldDnode := Some 1)
              _ _ _ _ _ _) _); try reflexivity.
    intros [_ H]. discriminate H.
Defined.

(** C3 at a collision, at a truncated part whose end does not project (alone
    and as the second element of a [PathVector]), and at a truncated part
    whose end has no node. *)
Lemma validate_failure_classes_witness :
  (exists validPart,
     validate_returns false (validator 8) (segment 0 9) false (false, validPart)
     /\ (validPart = segment 0 7 \/ validPart = segment 0 0))
  /\ validate false (validator 8) (segment_failing_at 0 12 [7%Z]) false
     = Throw (logic_error
         "End configuration of the valid part cannot be projected.")
  /\ validate_report false (validator 8)
       (PathVector 1 1 [segment 0 5; segment_failing_at 0 12 [7%Z]]) false
     = Throw (logic_error
         "End configuration of the valid part cannot be projected.")
  /\ validate_returns false (validator 26) (segment 0 40) false
       (false, segment 0 0).
Proof.
  assert (Hfail : projection_failure line_graph
                    (segment_failing_at 0 12 [7%Z])
                    (segment_failing_at 0 7 [7%Z])
                    "End configuration of the valid part cannot be projected.").
  { apply valid_part_end with (origNode := Some 0); reflexivity. }
  split; [| split; [| split]].
  - refine (proj1 (validate_failure_classes false (validator 8)
              {| lo := 0; hi := 9; unprojectable := [] |} false
              (g := line_graph) (pathNoCollision := segment 0 7) _ _)
            (Some 0) (Some 0) (Some 0) (Some 0) _ _ _ _); reflexivity.
  - refine (proj1 (proj2 (proj1 (proj2 (validate_failure_classes false
              (validator 8)
              {| lo := 0; hi := 12; unprojectable := [7%Z] |} false
              (g := line_graph)
              (pathNoCollision := segment_failing_at 0 7 [7%Z]) _ _))
            _ Hfail))); reflexivity.
  - refine (proj2 (proj2 (proj2 (proj1 (proj2 (validate_failure_classes false
              (validator 8)
              {| lo := 0; hi := 12; unprojectable := [7%Z] |} false
              (g := line_graph)
              (pathNoCollision := segment_failing_at 0 7 [7%Z]) _ _))
            _ Hfail))) 1 1 [segment 0 5] [] _ _); reflexivity.
  - refine (proj2 (proj2 (validate_failure_classes false (validator 26)
              {| lo := 0; hi := 40; unprojectable := [] |} false
              (g := line_graph) (pathNoCollision := segment 0 25) _ _))
            (Some 0) 25%Z "A configuration has no node"%string _ _ _);
      reflexivity.
Defined.

(** C4 at three elements, the second of which runs into an obstacle at 15,
    and at two elements clear of the obstacle. *)
Lemma validate_forward_path_vector_witness :
  validate_returns false (validator 15)
    (PathVector 1 1 [segment 0 5; segment 5 19; segment 19 40]) false
    (false, PathVector 1 1 [segment 0 5; segment 5 14])
  /\ validate_returns false (validator 50)
    (PathVector 1 1 [segment 0 5; segment 5 19]) false
    (true, PathVector 1 1 [segment 0 5; segment 5 19]).
Proof.
  split.
  - refine (proj1 (validate_forward_path_vector false (validator 15) 1 1
                     [segment 0 5; segment 5 19; segment 19 40])
                  1 (segment 5 14) _ _ _).
    + cbn. lia.
    + intros [| j] Hj; [reflexivity | lia].
    + reflexivity.
  - refine (proj2 (validate_forward_path_vector false (validator 50) 1 1
                     [segment 0 5; segment 5 19]) _).
    reflexivity.
Defined.

(** C6 as stated fails where the reverse branch is guarded: a [PathVector]
    whose only element starts after the obstacle is fully valid in reverse,
    and with assertions its validation aborts instead of returning [true]. *)
Lemma fully_valid_reverse_path_vector_aborts :
  fully_valid (validator 8) true (PathVector 1 1 [segment 10 12]) = true
  /\ validate_report false (validator 8) (PathVector 1 1 [segment 10 12]) true
     = AssertionFailed
         "!reverse && This has never been tested with reverse path"
  /\ validate false (validator 8) (PathVector 1 1 [segment 10 12]) true
     = AssertionFailed
         "!reverse && This has never been tested with reverse path".
Proof. repeat split. Qed.

(** C6 as the code has it, with assertions: a [PathVector] validated
    forward whose ends have nodes comes back whole from every overload; a
    non-composite path validated in reverse does from the overload taking a
    report; without a graph, or with a start that has no node, the
    three-argument overload aborts, and it throws what [getNode] throws for
    the end at 25.  Without assertions a [PathVector] validated in reverse
    comes back whole, also without a graph. *)
Lemma validate_fully_valid_path_witness :
  (validate_report false (validator 50)
     (PathVector 1 1 [segment 0 5; segment 5 19]) false
   = Return (true, PathVector 1 1 [segment 0 5; segment 5 19])
   /\ validate false (validator 50)
        (PathVector 1 1 [segment 0 5; segment 5 19]) false
      = Return (true, PathVector 1 1 [segment 0 5; segment 5 19]))
  /\ validate_report false (validator 8) (segment 10 12) true
     = Return (true, segment 10 12)
  /\ validate false
       (create (Configuration := Z) (Node := nat) (obstacle_at 50))
       (segment 0 5) false
     = AssertionFailed "constraintGraph_"
  /\ validate false (validator 50) (segment (-5) 5) false
     = AssertionFailed "constraintGraph_->getNode (validPart->initial ())"
  /\ validate false (validator 50) (segment 0 25) false
     = Throw (logic_error "A configuration has no node")
  /\ validate true
       (create (Configuration := Z) (Node := nat) (obstacle_at 8))
       (PathVector 1 1 [segment 10 12]) true
     = Return (true, PathVector 1 1 [segment 10 12]).
Proof.
  split; [| split; [| split; [| split; [| split]]]].
  - destruct (validate_fully_valid_path (NDEBUG := false) (validator 50)
                (path := PathVector 1 1 [segment 0 5; segment 5 19])
                (reverse := false))
      as (Hreport & _ & Hthree & _).
    + right. left. reflexivity.
    + reflexivity.
    + split; [exact Hreport |].
      apply Hthree. right. exists line_graph, 0, 1.
      repeat split; reflexivity.
  - refine (proj1 (validate_fully_valid_path (NDEBUG := false) (validator 8)
                     (path := segment 10 12) (reverse := true) _ _)).
    + right. right. eexists. reflexivity.
    + reflexivity.
  - destruct (validate_fully_valid_path (NDEBUG := false)
                (create (Configuration := Z) (Node := nat) (obstacle_at 50))
                (path := segment 0 5) (reverse := false))
      as (_ & _ & _ & _ & Hchecks).
    + right. left. reflexivity.
    + reflexivity.
    + apply (Hchecks eq_refl). reflexivity.
  - destruct (validate_fully_valid_path (NDEBUG := false) (validator 50)
                (path := segment (-5) 5) (reverse := false))
      as (_ & _ & _ & _ & Hchecks).
    + right. left. reflexivity.
    + reflexivity.
    + apply (proj2 (Hchecks eq_refl) line_graph eq_refl). reflexivity.
  - destruct (validate_fully_valid_path (NDEBUG := false) (validator 50)
                (path := segment 0 25) (reverse := false))
      as (_ & _ & _ & _ & Hchecks).
    + right. left. reflexivity.
    + reflexivity.
    + destruct (proj2 (Hchecks eq_refl) line_graph eq_refl)
        as (_ & _ & _ & Hend).
      apply (Hend 0). reflexivity. reflexivity.
  - destruct (validate_fully_valid_path (NDEBUG := true)
                (create (Configuration := Z) (Node := nat) (obstacle_at 8))
                (path := PathVector 1 1 [segment 10 12]) (reverse := true))
      as (_ & _ & Hthree & _).
    + left. reflexivity.
    + reflexivity.
    + apply Hthree. left. reflexivity.
Defined.

(** C2 as stated fails on a [PathVector]: with an obstacle at 3 the first
    element [[0, 5]] is cut to [[0, 2]], which ends in node 0 like [[0, 5]]
    itself, so the part [[0, 2]] is returned; the whole path ends at 15, in
    node 1.  Every assertion of the three-argument overload holds. *)
Lemma valid_part_of_path_vector_in_other_node :
  let path := PathVector 1 1 [segment 0 5; segment 5 15] in
  let validPart := PathVector 1 1 [segment 0 2] in
  validate false (validator 3) path false = Return (false, validPart)
  /\ node_at line_graph validPart (snd (timeRange validPart))
     = Return (Some 0)
  /\ node_at line_graph path (snd (timeRange path)) = Return (Some 1)
  /\ ~ same_state_pair line_graph validPart path
  /\ validPart <> degenerate path.
Proof.
  cbv zeta. repeat split; try discriminate.
  intros (origNode & destNode & _ & Hpart & _ & Hpath).
  cbv in Hpart, Hpath. congruence.
Qed.

(** C2 as the code has it, at that [PathVector] and at a path cut before an
    obstacle at 8. *)
Lemma validate_graph_consistent_witness :
  graph_consistent (validator 3) line_graph false false
    (PathVector 1 1 [segment 0 2])
    (PathVector 1 1 [segment 0 5; segment 5 15])
  /\ (segment 0 7 = segment 0 9
      \/ same_state_pair line_graph (segment 0 7) (segment 0 9)
      \/ segment 0 7 = degenerate (segment 0 9)).
Proof.
  split.
  - refine (proj1 (validate_graph_consistent false (validator 3)
              (g := line_graph)
              (path := PathVector 1 1 [segment 0 5; segment 5 15])
              (reverse := false) (success := false)
              (validPart := PathVector 1 1 [segment 0 2]) _ _ _)).
    + reflexivity.
    + left. reflexivity.
    + left. reflexivity.
  - refine (proj2 (validate_graph_consistent false (validator 8)
              (g := line_graph) (path := segment 0 9)
              (reverse := false) (success := false)
              (validPart := segment 0 7) _ _ _) _).
    + reflexivity.
    + left. reflexivity.
    + right. left. reflexivity.
    + eexists. reflexivity.
Defined.

(** The relation refuses a strict prefix of a [PathVector] without
    collision: no element of [[0, 5]; [5, 19]] meets the obstacle at 50, so
    nothing relates [[0, 5]] alone to it, with either result. *)
Example strict_prefix_is_not_graph_consistent (success : bool) :
  ~ graph_consistent (validator 50) line_graph false success
      (PathVector 1 1 [segment 0 5])
      (PathVector 1 1 [segment 0 5; segment 5 19]).
Proof.
  intros H. inversion H; subst.
  match goal with
  | Hk : ?k < _, Hinvalid : fully_valid _ _ (pathAtRank _ ?k) = false,
    Hpart : map _ (firstn ?k _) ++ _ = _ |- _ =>
      destruct k as [| [| k]]; cbn in Hk, Hinvalid, Hpart;
      try discriminate; lia
  end.
Qed.

(** Nor does it take a zero-length part of an element that is fully
    valid. *)
Example degenerate_of_valid_element_is_not_graph_consistent (success : bool) :
  ~ graph_consistent (validator 50) line_graph false success
      (PathVector 1 1 [segment 0 5; degenerate (segment 5 19)])
      (PathVector 1 1 [segment 0 5; segment 5 19]).
Proof.
  intros H. inversion H; subst.
  match goal with
  | Hk : ?k < _, Hinvalid : fully_valid _ _ (pathAtRank _ ?k) = false,
    Hpart : map _ (firstn ?k _) ++ _ = _ |- _ =>
      destruct k as [| [| k]]; cbn in Hk, Hinvalid, Hpart;
      try discriminate; lia
  end.
Qed.

(** C5: reverse validation, without assertions, of three elements with an
    obstacle at 3.  The elements of ranks 2 and 1 start after the obstacle;
    the element of rank 0, [[0, 5]], does not and is cut to [[4, 5]].  The
    part returned holds two copies of the element of rank 0, the one that is
    not valid, where copies of the elements of ranks 2 and 1 are due.  With
    assertions the same call aborts. *)
Theorem reverse_path_vector_copies_stopping_element :
  let path := PathVector 1 1 [segment 0 5; segment 5 15; segment 15 19] in
  validate_report true (validator 3) path true
  = Return (false, PathVector 1 1 [segment 0 5; segment 0 5; segment 4 5])
  /\ validate_report true (validator 3) path true
     <> Return (false, PathVector 1 1 [copy (segment 15 19);
                                        copy (segment 5 15); segment 4 5])
  /\ validate_report true (validator 3) (segment 0 5) true
     = Return (false, segment 4 5)
  /\ validate_report false (validator 3) path true
     = AssertionFailed
         "!reverse && This has never been tested with reverse path".
Proof. cbv zeta. repeat split. discriminate. Qed.

(** C10 as stated fails when the truncated part does not project at its
    start: on a validator fresh from [create], in a build with assertions,
    the call ends in the [std::logic_error] of line 120, not in an
    assertion. *)
Lemma validate_without_graph_throws :
  validate false
    (create (Configuration := Z) (Node := nat) (obstacle_at 8))
    (segment_failing_at 0 12 [0%Z]) false
  = Throw (logic_error
      "Initial configuration of the valid part cannot be projected.")
  /\ (forall expr,
        validate false
          (create (Configuration := Z) (Node := nat) (obstacle_at 8))
          (segment_failing_at 0 12 [0%Z]) false
        <> AssertionFailed expr).
Proof. split; [reflexivity | discriminate]. Qed.

(** X1 at a path cut before an obstacle at 8 and at a [PathVector] clear
    of an obstacle at 50. *)
Lemma validate_success_iff_fully_valid_witness :
  (false = fully_valid (validator 8) false (segment 0 9)
   /\ (false = true -> segment 0 7 = segment 0 9))
  /\ (true = fully_valid (validator 50) false
               (PathVector 1 1 [segment 0 5; segment 5 19])
      /\ (true = true ->
          PathVector 1 1 [segment 0 5; segment 5 19]
          = PathVector 1 1 [segment 0 5; segment 5 19])).
Proof.
  split.
  - refine (validate_success_iff_fully_valid false (validator 8)
              (segment 0 9) false (success := false)
              (validPart := segment 0 7) _).
    left. reflexivity.
  - refine (validate_success_iff_fully_valid false (validator 50)
              (PathVector 1 1 [segment 0 5; segment 5 19])
              false (success := true)
              (validPart := PathVector 1 1 [segment 0 5; segment 5 19]) _).
    left. reflexivity.
Defined.

(** X2 at an obstacle at 15: what follows [[5, 19]] does not count, not
    even a path that does not project; in reverse, with an obstacle at 3,
    what precedes [[0, 5]] does not. *)
Lemma validate_stops_at_first_invalid_element_witness :
  validate_report false (validator 15)
    (PathVector 1 1
       ([segment 0 5] ++ segment 5 19 :: [segment_failing_at 19 40 [19%Z]]))
    false
  = validate_report false (validator 15)
      (PathVector 1 1 ([segment 0 5] ++ segment 5 19 :: [])) false
  /\ validate_report true (validator 3)
       (PathVector 1 1 ([segment (-9) 0] ++ segment 0 5 :: [segment 5 15]))
       true
     = validate_report true (validator 3)
         (PathVector 1 1 ([] ++ segment 0 5 :: [segment 5 15])) true.
Proof.
  split.
  - refine (proj1 (validate_stops_at_first_invalid_element false
                     (validator 15) 1 1 (segment 5 19))
                  [segment 0 5] [segment_failing_at 19 40 [19%Z]] [] _ _);
      reflexivity.
  - refine (proj2 (validate_stops_at_first_invalid_element true
                     (validator 3) 1 1 (segment 0 5))
                  [segment (-9) 0] [] [segment 5 15] _ _ _);
      reflexivity.
Defined.

(** X3 at three elements, the second of which runs into an obstacle
    at 15. *)
Lemma validate_false_path_vector_shape_witness :
  let paths := [segment 0 5; segment 5 19; segment 19 40] in
  exists k part,
    k < numberPaths paths /\
    (forall j, j < k ->
       fully_valid (validator 15) false (pathAtRank paths j) = true) /\
    fully_valid (validator 15) false (pathAtRank paths k) = false /\
    validate_report false (validator 15) (pathAtRank paths k) false
      = Return (false, part) /\
    PathVector 1 1 [segment 0 5; segment 5 14]
    = PathVector 1 1 (map copy (firstn k paths) ++ [part]) /\
    List.length (map copy (firstn k paths) ++ [part]) = S k.
Proof.
  refine (validate_false_path_vector_shape false (validator 15)
            1 1 [segment 0 5; segment 5 19; segment 19 40]
            (validPart := PathVector 1 1 [segment 0 5; segment 5 14]) _).
  reflexivity.
Defined.

(** X4 at a truncated part that starts where the graph has no node, and at
    a path that ends there. *)
Lemma validate_classification_errors_propagate_witness :
  validate_report false (validator 35) (segment 25 40) false
  = Throw (logic_error "A configuration has no node")
  /\ validate_report false (validator 8) (segment 0 25) false
     = Throw (logic_error "A configuration has no node").
Proof.
  split.
  - refine (proj1 (validate_classification_errors_propagate false
                     (validator 35)
                     {| lo := 25; hi := 40; unprojectable := [] |} false
                     (g := line_graph) (pathNoCollision := segment 25 34)
                     _ _)
                  25%Z (logic_error "A configuration has no node") _ _);
      reflexivity.
  - refine (proj2 (proj2 (proj2 (validate_classification_errors_propagate
                     false (validator 8)
                     {| lo := 0; hi := 25; unprojectable := [] |} false
                     (g := line_graph) (pathNoCollision := segment 0 7)
                     _ _)))
                  (Some 0) (Some 0) (Some 0) 25%Z
                  (logic_error "A configuration has no node") _ _ _ _ _);
      reflexivity.
Defined.

(** X6 at a second element whose truncated part does not project at
    its end. *)
Lemma validate_forward_failure_propagates_witness :
  validate_report false (validator 8)
    (PathVector 1 1
       ([segment 0 5] ++ segment_failing_at 0 12 [7%Z] :: [segment 12 15]))
    false
  = validate_report false (validator 8) (segment_failing_at 0 12 [7%Z]) false.
Proof.
  refine (validate_forward_failure_propagates false (validator 8) 1 1
            [segment 0 5] [segment 12 15]
            (segment_failing_at 0 12 [7%Z]) _ _); reflexivity.
Defined.

End LineRuns.

(** ** GraphSteeringMethod *)

Module GraphSteeringMethodProperties.
Import GraphSteeringMethod.

Section Properties.
Context {Configuration State Edge Path : Type}.
Variable build : Edge -> Configuration -> Configuration
                 -> bool * PathPtr_t (Path := Path).
Variable right_to_left : bool.
Variable self : t (Configuration := Configuration) (State := State)
                  (Edge := Edge).
Variables q1 q2 : Configuration.

(** *** The loop, one candidate at a time *)
Lemma back_snoc (edges : Edges_t) (e : Edge) : back (edges ++ [e]) = Some e.
Proof.
  induction edges as [| e0 rest IH]; [reflexivity |].
  cbn. destruct (rest ++ [e]) eqn:E; [now destruct rest | exact IH].
Qed.

Lemma pop_back_snoc (edges : Edges_t) (e : Edge) :
  pop_back (edges ++ [e]) = edges.
Proof. apply removelast_last. Qed.

Lemma while_loop_nil : while_loop build q1 q2 [] = None.
Proof. reflexivity. Qed.

Lemma while_loop_snoc (edges : Edges_t) (e : Edge) :
  while_loop build q1 q2 (edges ++ [e])
  = if fst (build e q1 q2) then snd (build e q1 q2)
    else while_loop build q1 q2 edges.
Proof.
  remember (edges ++ [e]) as possibleEdges eqn:Hsnoc.
  funelim (while_loop build q1 q2 possibleEdges).
  - match goal with Hb : back _ = None |- _ =>
      pose proof (back_snoc edges e0) as Hsnoc; congruence
    end.
  - match goal with Hb : back _ = Some ?e', Hbuild : build ?e' _ _ = _ |- _ =>
      assert (e' = e0) as -> by (pose proof (back_snoc edges e0); congruence);
      rewrite Hbuild
    end.
    reflexivity.
  - match goal with Hb : back _ = Some ?e', Hbuild : build ?e' _ _ = _ |- _ =>
      assert (e' = e0) as -> by (pose proof (back_snoc edges e0); congruence);
      rewrite Hbuild
    end.
    cbn. now rewrite pop_back_snoc.
Qed.

Lemma while_loop_skips_failures (before after : Edges_t) :
  all_fail build q1 q2 after ->
  while_loop build q1 q2 (before ++ after) = while_loop build q1 q2 before.
Proof.
  induction after as [| e after IH] using rev_ind; intros Hfail.
  - now rewrite app_nil_r.
  - apply Forall_app in Hfail as [Hafter He].
    rewrite app_assoc, while_loop_snoc.
    inversion He as [| ? ? Hfst _]; subst. rewrite Hfst. now apply IH.
Qed.

Lemma while_loop_all_fail (edges : Edges_t) :
  all_fail build q1 q2 edges -> while_loop build q1 q2 edges = None.
Proof.
  intros Hfail. now rewrite <- (app_nil_l edges), while_loop_skips_failures.
Qed.

Lemma while_loop_first_success (before after : Edges_t) (e : Edge) :
  all_fail build q1 q2 after ->
  fst (build e q1 q2) = true ->
  while_loop build q1 q2 (before ++ e :: after) = snd (build e q1 q2).
Proof.
  intros Hfail Hok.
  change (e :: after) with ([e] ++ after).
  rewrite app_assoc, while_loop_skips_failures by exact Hfail.
  now rewrite while_loop_snoc, Hok.
Qed.

(** Either every candidate fails, or there is a last one that builds. *)
Lemma while_loop_cases (edges : Edges_t) :
  all_fail build q1 q2 edges
  \/ exists before e after,
       edges = before ++ e :: after /\ all_fail build q1 q2 after /\
       fst (build e q1 q2) = true.
Proof.
  induction edges as [| e edges IH] using rev_ind.
  - left. constructor.
  - destruct (fst (build e q1 q2)) eqn:He.
    + right. exists edges, e, []. repeat split; [constructor | exact He].
    + destruct IH as [Hall | (before & e' & after & -> & Hafter & He')].
      * left. apply Forall_app. split; [exact Hall |].
        constructor; [exact He | constructor].
      * right. exists before, e', (after ++ [e]).
        rewrite <- app_assoc. repeat split; [| exact He'].
        apply Forall_app. split; [exact Hafter |].
        constructor; [exact He | constructor].
Qed.

(** [impl_compute] once the graph has answered. *)
Lemma impl_compute_edges (graph : Graph) (possibleEdges : Edges_t) :
  constraintGraph (problem_ self) = Some graph ->
  query right_to_left q1 q2 graph = Return possibleEdges ->
  impl_compute build right_to_left self q1 q2
  = Return (while_loop build q1 q2 possibleEdges).
Proof. intros Hg Hq. unfold impl_compute. rewrite Hg. cbn. now rewrite Hq. Qed.


(** C7.  The candidate list is consumed as a stack.  With the list
    [edges ++ [e]] remaining, the loop calls [build] on [e], the edge at the
    back: if that succeeds it returns what [e] built, whatever [edges] holds;
    if not, it goes on with [edges].  With nothing remaining it returns no
    path.  So [impl_compute] returns what the last edge of the list that
    builds has built. *)
Theorem compute_consumes_edges_as_stack :
  while_loop build q1 q2 [] = None
  /\ (forall edges e,
        while_loop build q1 q2 (edges ++ [e])
        = if fst (build e q1 q2) then snd (build e q1 q2)
          else while_loop build q1 q2 edges)
  /\ (forall graph before e after,
        constraintGraph (problem_ self) = Some graph ->
        query right_to_left q1 q2 graph = Return (before ++ e :: after) ->
        all_fail build q1 q2 after ->
        fst (build e q1 q2) = true ->
        impl_compute build right_to_left self q1 q2
        = Return (snd (build e q1 q2))).
Proof.
  split; [apply while_loop_nil | split; [apply while_loop_snoc |]].
  intros graph before e after Hg Hq Hfail Hok.
  rewrite (impl_compute_edges Hg Hq).
  now rewrite while_loop_first_success.
Qed.






(** *** More on [impl_compute] *)

(** X8.  The loop returns what the first edge that builds, counting from
    the back of the list, has built: it is a search of the reversed list. *)
Theorem while_loop_finds_from_the_back (edges : Edges_t) :
  while_loop build q1 q2 edges
  = match find (fun e => fst (build e q1 q2)) (rev edges) with
    | Some e => snd (build e q1 q2)
    | None => None
    end.
Proof.
  induction edges as [| e edges IH] using rev_ind.
  - apply while_loop_nil.
  - rewrite while_loop_snoc, rev_unit. cbn.
    destruct (fst (build e q1 q2)); [reflexivity | exact IH].
Qed.

(** X9.  A path returned by [impl_compute] was built by one of the edges
    that the graph gave for the states of the two configurations: the
    steering method makes no path of its own. *)
Theorem compute_returns_a_built_path (graph : Graph) (path : Path) :
  constraintGraph (problem_ self) = Some graph ->
  impl_compute build right_to_left self q1 q2 = Return (Some path) ->
  exists edges e,
    query right_to_left q1 q2 graph = Return edges /\
    In e edges /\
    build e q1 q2 = (true, Some path).
Proof.
  intros Hg Hret. unfold impl_compute in Hret. rewrite Hg in Hret.
  cbn in Hret.
  destruct (query right_to_left q1 q2 graph)
    as [edges | [what | what] | |] eqn:Hq; cbn in Hret; try discriminate.
  injection Hret as Hloop. exists edges.
  destruct (while_loop_cases edges)
    as [Hall | (before & e & after & -> & Hafter & He)].
  - rewrite while_loop_all_fail in Hloop by exact Hall. discriminate.
  - rewrite while_loop_first_success in Hloop by assumption.
    exists e. split; [reflexivity | split].
    + apply in_or_app. right. now left.
    + rewrite (surjective_pairing (build e q1 q2)), He, Hloop. reflexivity.
Qed.

(** X10.  The order in which the two arguments of [getEdges] are evaluated
    shows only when both classifications fail, and differently: if one of
    them returns, or both end alike, left-to-right and right-to-left give
    the same query, and the same [impl_compute]. *)
Theorem compute_evaluation_order (graph : Graph) :
  constraintGraph (problem_ self) = Some graph ->
  returned (getState graph q1) = true \/
  returned (getState graph q2) = true \/
  getState graph q1 = getState graph q2 ->
  query true q1 q2 graph = query false q1 q2 graph /\
  impl_compute build true self q1 q2 = impl_compute build false self q1 q2.
Proof.
  intros Hg Horder.
  assert (Hquery : query true q1 q2 graph = query false q1 q2 graph).
  { unfold query.
    destruct Horder as [H1 | [H2 | Hsame]].
    - destruct (getState graph q1) as [s1 | | |]; try discriminate.
      destruct (getState graph q2) as [s2 | | |]; reflexivity.
    - destruct (getState graph q2) as [s2 | | |]; try discriminate.
      destruct (getState graph q1) as [s1 | | |]; reflexivity.
    - rewrite Hsame.
      destruct (getState graph q2) as [s2 | | |]; reflexivity. }
  split; [exact Hquery |].
  unfold impl_compute. rewrite Hg. cbn -[query]. now rewrite Hquery.
Qed.

(** X11.  Only a [std::logic_error] is turned into a null path.
    [impl_compute] returns exactly when the graph gives a list of edges or
    throws a [std::logic_error]; any other exception of the graph reaches
    the caller, and without a graph the null pointer is dereferenced. *)
Theorem compute_catches_logic_error_only :
  (forall graph,
     constraintGraph (problem_ self) = Some graph ->
     (returned (impl_compute build right_to_left self q1 q2) = true <->
      (exists edges, query right_to_left q1 q2 graph = Return edges) \/
      (exists what,
         query right_to_left q1 q2 graph = Throw (logic_error what)))
     /\
     (forall what,
        query right_to_left q1 q2 graph = Throw (other_exception what) ->
        impl_compute build right_to_left self q1 q2
        = Throw (other_exception what)))
  /\
  (constraintGraph (problem_ self) = None ->
   impl_compute build right_to_left self q1 q2 = Undefined).
Proof.
  split.
  - intros graph Hg. unfold impl_compute. rewrite Hg. cbn. split.
    + destruct (query right_to_left q1 q2 graph)
        as [edges | [what | what] | |]; cbn; split; intros H;
        try discriminate; try reflexivity.
      * left. now exists edges.
      * right. now exists what.
      * destruct H as [[edges H] | [w H]]; discriminate.
      * destruct H as [[edges H] | [w H]]; discriminate.
      * destruct H as [[edges H] | [w H]]; discriminate.
    + intros what ->. reflexivity.
  - intros Hnone. unfold impl_compute. now rewrite Hnone.
Qed.

End Properties.
End GraphSteeringMethodProperties.

(** ** Runs of the steering method *)

Module SteeringRuns.
Import GraphSteeringMethod GraphSteeringMethodProperties Steering.

(** The example of the specification: of [[E1; E2]], [E1] failing and [E2]
    building, the path is that of [E2]. *)
Example E1_fails_E2_builds :
  impl_compute build false steering 5%Z 15%Z = Return (Some 2).
Proof. reflexivity. Qed.

Example later_edge_first :
  impl_compute build false steering 12%Z 15%Z = Return (Some 4).
Proof. reflexivity. Qed.

(** C7 at the edges [[2; 4; 3]]: 3 is tried and fails, 4 builds, 2 is not
    reached. *)
Lemma compute_consumes_edges_as_stack_witness :
  impl_compute build false steering 12%Z 15%Z = Return (Some 4)
  /\ impl_compute build true steering 12%Z 15%Z = Return (Some 4).
Proof.
  split.
  - refine (proj2 (proj2 (compute_consumes_edges_as_stack build false
              steering 12%Z 15%Z)) tens_graph [2] 4 [3] _ _ _ _);
      try reflexivity.
    constructor; [reflexivity | constructor].
  - refine (proj2 (proj2 (compute_consumes_edges_as_stack build true
              steering 12%Z 15%Z)) tens_graph [2] 4 [3] _ _ _ _);
      try reflexivity.
    constructor; [reflexivity | constructor].
Defined.



(** X9 at the edges [[2; 4; 3]]: the path returned is the one that edge 4
    built. *)
Lemma compute_returns_a_built_path_witness :
  exists edges e,
    query false 12%Z 15%Z tens_graph = Return edges /\
    In e edges /\
    build e 12%Z 15%Z = (true, Some 4).
Proof.
  refine (compute_returns_a_built_path build false steering 12%Z 15%Z
            (graph := tens_graph) (path := 4) _ _); reflexivity.
Defined.

(** X10 at a first configuration without a state and a second one with a
    state. *)
Lemma compute_evaluation_order_witness :
  query true (-1)%Z 15%Z tens_graph = query false (-1)%Z 15%Z tens_graph
  /\ impl_compute build true steering (-1)%Z 15%Z
     = impl_compute build false steering (-1)%Z 15%Z.
Proof.
  refine (compute_evaluation_order build steering (-1)%Z 15%Z
            (graph := tens_graph) _ _).
  - reflexivity.
  - right. left. reflexivity.
Defined.

End SteeringRuns.

(** ** NodeSelector *)

Module NodeSelectorProperties.
Import NodeSelector Selection.

Section Properties.
Context {Configuration Node : Type}.
Variable contains : Node -> Configuration -> bool.

Lemma first_containing_Some states config state :
  first_containing contains states config = Some state <->
  exists before after,
    states = before ++ state :: after /\
    contains state config = true /\
    none_contains contains before config.
Proof.
  induction states as [| s rest IH]; cbn.
  - split; [discriminate |].
    intros (before & after & H & _). now destruct before.
  - destruct (contains s config) eqn:Hs.
    + split.
      * intros [= ->]. exists [], rest.
        split; [reflexivity | split; [exact Hs | constructor]].
      * intros ([| b before] & after & Heq & Hsat & Hnone).
        -- now injection Heq as ->.
        -- injection Heq as -> ->. inversion Hnone; subst. congruence.
    + rewrite IH. split.
      * intros (before & after & -> & Hsat & Hnone).
        exists (s :: before), after.
        split; [reflexivity | split; [exact Hsat |]].
        constructor; assumption.
      * intros ([| b before] & after & Heq & Hsat & Hnone).
        -- injection Heq as -> ->. congruence.
        -- injection Heq as -> ->. inversion Hnone; subst.
           exists before, after.
           split; [reflexivity | split; assumption].
Qed.

Lemma first_containing_None states config :
  first_containing contains states config = None <->
  none_contains contains states config.
Proof.
  induction states as [| s rest IH]; cbn.
  - split; [constructor | reflexivity].
  - destruct (contains s config) eqn:Hs.
    + split; [discriminate |]. intros H. inversion H; subst. congruence.
    + rewrite IH. split.
      * intros H. constructor; assumption.
      * intros H. now inversion H.
Qed.

End Properties.

(** C9.  [getState] returns the first state, in the order of
    [orderedStates_], whose constraint the configuration satisfies (and fails
    exactly when there is none).  The answer is a function of the sequence
    and of what the constraints of its states say of the configuration: two
    selectors with the same sequence, under two predicates that agree on it,
    answer the same. *)
Theorem getState_first_in_priority_order
    {Configuration Node : Type}
    (contains : Node -> Configuration -> bool)
    (self : t) (config : Configuration) :
  (forall state,
     getState contains self config = Return state <->
     exists before after,
       orderedStates_ self = before ++ state :: after /\
       contains state config = true /\
       none_contains contains before config)
  /\ ((exists what, getState contains self config = Throw (logic_error what))
      <-> none_contains contains (orderedStates_ self) config)
  /\ (forall (contains' : Node -> Configuration -> bool) (self' : t),
        orderedStates_ self' = orderedStates_ self ->
        (forall state, In state (orderedStates_ self) ->
           contains' state config = contains state config) ->
        getState contains' self' config = getState contains self config).
Proof.
  split; [| split].
  - intros state. rewrite <- first_containing_Some. unfold getState.
    destruct (first_containing contains (orderedStates_ self) config);
      split; congruence.
  - rewrite <- first_containing_None. unfold getState.
    destruct (first_containing contains (orderedStates_ self) config); split.
    + intros [what H]. discriminate.
    + discriminate.
    + reflexivity.
    + intros _. eexists. reflexivity.
  - intros contains' self' Hsame Hagree. unfold getState. rewrite Hsame.
    assert (Hfirst : first_containing contains' (orderedStates_ self) config
                     = first_containing contains (orderedStates_ self) config).
    { revert Hagree. generalize (orderedStates_ self) as states.
      induction states as [| s rest IH]; intros Hagree; [reflexivity |].
      cbn. rewrite Hagree by now left.
      rewrite IH by (intros state Hin; apply Hagree; now right).
      reflexivity. }
    now rewrite Hfirst.
Qed.

Example getState_5_is_A :
  getState AB_contains {| orderedStates_ := [A; B] |} 5%Z = Return A.
Proof. reflexivity. Qed.

Example getState_minus_1_is_B :
  getState AB_contains {| orderedStates_ := [A; B] |} (-1)%Z = Return B.
Proof. reflexivity. Qed.

(** C9 at that selector: [B] is returned at [-1] because [A], before it,
    does not contain [-1]. *)
Lemma getState_first_in_priority_order_witness :
  exists before after,
    [A; B] = before ++ B :: after /\
    AB_contains B (-1)%Z = true /\
    none_contains AB_contains before (-1)%Z.
Proof.
  exact (proj1 (proj1 (getState_first_in_priority_order AB_contains
                         {| orderedStates_ := [A; B] |} (-1)%Z) B)
               eq_refl).
Defined.

End NodeSelectorProperties.
